(** * LangChain.js excerpt: Runnable, BaseChatModel, MongoDBAtlasVectorSearch

    A shallow embedding of three TypeScript sources:
    - [schema/runnable.ts]      ([Runnable]: [_getOptionsList], [batch],
      [_streamIterator]);
    - [chat_models/base.ts]     ([BaseChatModel]: the two
      [_separateRunnableConfigFromCallOptions], [generate], [invoke],
      [_streamIterator]);
    - [vectorstores/mongodb_atlas.ts] ([addVectors],
      [similaritySearchVectorWithScore]).

    Promises are modelled by their eventual outcome, JavaScript objects by
    finite maps from property names to values, arrays by lists, [undefined]
    by [None].  Notifications sent to callback handlers are recorded in an
    event log threaded through the stateful operations. *)

From Stdlib Require Import ZArith.
From stdpp Require Import base option list strings gmap.

Local Open Scope Z_scope.
Local Open Scope nat_scope.

(** ** JavaScript values and errors *)

(** JSON-like values.  Numbers are only stored and forwarded by the code
    under study (embedding entries, [k], scores), never computed with, so
    they are kept as integers. *)
#[local] Set Warnings "-register-all".
Inductive JsVal : Type :=
  | JNull
  | JBool (b : bool)
  | JNum (n : Z)
  | JStr (s : string)
  | JArr (l : list JsVal)
  | JObj (m : gmap string JsVal).

(** A plain object, [Record<string, any>]. *)
Abbreviation Obj := (gmap string JsVal).

(** JavaScript truthiness of a defined value: [null], [false], [0] and the
    empty string are falsy; every array and every object is truthy. *)
Definition truthy (v : JsVal) : bool :=
  match v with
  | JNull => false
  | JBool b => b
  | JNum n => negb (Z.eqb n 0)
  | JStr s => negb (String.eqb s "")
  | JArr _ => true
  | JObj _ => true
  end.

(** Truthiness of a possibly [undefined] value. *)
Definition truthy_opt (o : option JsVal) : bool :=
  match o with
  | Some v => truthy v
  | None => false
  end.

(** Errors raised in this layer or by its collaborators. *)
Inductive Error : Type :=
  | OptionsLengthMismatch (nOptions nInputs : nat)
  | TypeError (what : string)
  | NotImplemented
  | Thrown (reason : string).

(** ** Promises

    A promise is represented by its eventual outcome; [Pending] stands for
    a promise that never settles. *)
Inductive Promise (A : Type) : Type :=
  | Fulfilled (v : A)
  | Rejected (reason : Error)
  | Pending.
Arguments Fulfilled {A} v.
Arguments Rejected {A} reason.
Arguments Pending {A}.

Definition isFulfilled {A} (p : Promise A) : bool :=
  match p with Fulfilled _ => true | _ => false end.

(** The array returned by a fulfilled [Promise.all]: every slot filled. *)
Definition slotsValues {A} (slots : list (option A)) : option (list A) :=
  mapM id slots.

(** [Promise.all ps], the input promises settling in the order
    [order] (a list of indices into [ps]).  A fulfilment stores the value
    at the promise's own index; the first rejection to occur rejects the
    combined promise; the combined promise fulfils when every slot is
    filled.  An index that never appears in [order] never settles. *)
Fixpoint promiseAllFrom {A} (ps : list (Promise A)) (order : list nat)
    (slots : list (option A)) : Promise (list A) :=
  match order with
  | [] =>
      match slotsValues slots with
      | Some vs => Fulfilled vs
      | None => Pending
      end
  | k :: order' =>
      match ps !! k with
      | Some (Fulfilled v) => promiseAllFrom ps order' (<[k := Some v]> slots)
      | Some (Rejected e) => Rejected e
      | Some Pending | None => promiseAllFrom ps order' slots
      end
  end.

Definition promiseAll {A} (ps : list (Promise A)) (order : list nat)
    : Promise (list A) :=
  promiseAllFrom ps order (replicate (length ps) None).

(** [Promise.allSettled ps]: waits for every input promise, whatever the
    order in which they settle, and reports each outcome at its own index.
    It stays pending when one of the inputs never settles. *)
Definition allSettled {A} (ps : list (Promise A)) : option (list (Promise A)) :=
  if forallb (fun p => match p with Pending => false | _ => true end) ps
  then Some ps else None.

(** [a.slice(i, j)] for non-negative integers [i <= j]. *)
Definition slice {A} (i j : nat) (l : list A) : list A :=
  take (j - i) (drop i l).

(** The result of draining an async generator: the values yielded, then
    how the generator finished. *)
Record Stream (A : Type) : Type := MkStream {
  yielded : list A;
  finish : Promise unit;
}.
Arguments yielded {A} _.
Arguments finish {A} _.
Arguments MkStream {A} _ _.

(** ** Runnable (schema/runnable.ts) *)
Module Runnable.
Section Runnable.
Context {RunInput CallOptions RunOutput : Type}.

(** The value of [options ?? {}] needs the empty options object. *)
Variable emptyOptions : CallOptions.

(** [abstract invoke(input, options?)]. *)
Variable invoke : RunInput → option CallOptions → Promise RunOutput.

(** The [options] argument of [batch]:
    [CallOptions | CallOptions[] | undefined]. *)
Inductive BatchOptions : Type :=
  | NoOptions
  | Shared (o : CallOptions)
  | PerInput (os : list CallOptions).

(** [_getOptionsList(options, length)], after [options ?? {}]. *)
Definition _getOptionsList (options : BatchOptions) (length_ : nat)
    : Error + list CallOptions :=
  match options with
  | PerInput os =>
      if decide (length os ≠ length_)
      then inl (OptionsLengthMismatch (length os) length_)
      else inr os
  | Shared o => inr (replicate length_ o)
  | NoOptions => inr (replicate length_ emptyOptions)
  end.

(** [batchOptions?.maxConcurrency && batchOptions.maxConcurrency > 0
      ? batchOptions?.maxConcurrency : inputs.length]. *)
Definition batchSize (maxConcurrency : option Z) (nInputs : nat) : nat :=
  match maxConcurrency with
  | Some m =>
      if negb (Z.eqb m 0) && Z.ltb 0 m then Z.to_nat m else nInputs
  | None => nInputs
  end.

(** One invocation issued by [batch]: the input and the options it was
    given ([configList[i]], [undefined] when out of range). *)
Definition Call : Type := RunInput * option CallOptions.

(** The calls of the window starting at [i]:
    [inputs.slice(i, i + batchSize).map((input, i) => (input, configList[i]))].
    The index used on [configList] is the callback's own second argument,
    the position inside the slice. *)
Definition windowCalls (inputs : list RunInput) (configList : list CallOptions)
    (i size : nat) : list Call :=
  imap (fun k input => (input, configList !! k)) (slice i (i + size) inputs).

(** The [for] loop of [batch], [i] being the loop variable and [windows]
    the calls issued so far, one list per window.  [sched i] is the order
    in which the invocations of the window starting at [i] settle.  The
    loop stops at the first window whose [Promise.all] rejects. *)
Fixpoint batchLoop (fuel : nat) (inputs : list RunInput)
    (configList : list CallOptions) (size : nat) (sched : nat → list nat)
    (i : nat) (windows : list (list Call))
    (batchResults : list (list RunOutput))
    : list (list Call) * Promise (list RunOutput) :=
  match fuel with
  | 0 => (windows, Pending)
  | S fuel' =>
      if decide (i < length inputs) then
        let calls := windowCalls inputs configList i size in
        let batchPromises := map (fun c => invoke c.1 c.2) calls in
        match promiseAll batchPromises (sched i) with
        | Fulfilled batchResult =>
            batchLoop fuel' inputs configList size sched (i + size)
              (windows ++ [calls]) (batchResults ++ [batchResult])
        | Rejected e => (windows ++ [calls], Rejected e)
        | Pending => (windows ++ [calls], Pending)
        end
      else (windows, Fulfilled (concat batchResults))
  end.

(** [batch(inputs, options, batchOptions)]: the windows of calls issued
    and the outcome. *)
Definition batch (inputs : list RunInput) (options : BatchOptions)
    (maxConcurrency : option Z) (sched : nat → list nat)
    : list (list Call) * Promise (list RunOutput) :=
  match _getOptionsList options (length inputs) with
  | inl e => ([], Rejected e)
  | inr configList =>
      batchLoop (S (length inputs)) inputs configList
        (batchSize maxConcurrency (length inputs)) sched 0 [] []
  end.

(** Every invocation of every window eventually settles: the settling
    order of the window starting at [i] mentions each position of that
    window. *)
Definition settlesAll (inputs : list RunInput) (size : nat)
    (sched : nat → list nat) : Prop :=
  ∀ i k, k < length (slice i (i + size) inputs) → k ∈ sched i.

(** [async *_streamIterator(input, options) { yield this.invoke(...) }]:
    the promise is awaited, its value yielded; a rejection is thrown out
    of the generator before anything is yielded. *)
Definition _streamIterator (input : RunInput) (options : option CallOptions)
    : Stream RunOutput :=
  match invoke input options with
  | Fulfilled v => MkStream [v] (Fulfilled tt)
  | Rejected e => MkStream [] (Rejected e)
  | Pending => MkStream [] Pending
  end.
End Runnable.
End Runnable.


(** A concrete runnable used to run [batch]: it answers every invocation
    with the input and the options it received. *)
Module EchoRunnable.
Definition invoke (input : nat) (options : option string)
    : Promise (nat * option string) :=
  Fulfilled (input, options).

(** In every window the later invocation settles first. *)
Definition lastFirst (_ : nat) : list nat := [1; 0].
End EchoRunnable.

(** A runnable that throws on the input 13 and echoes every other input. *)
Module FlakyRunnable.
Definition invoke (input : nat) (options : option string)
    : Promise (nat * option string) :=
  if Nat.eqb input 13 then Rejected (Thrown "unlucky")
  else Fulfilled (input, options).

(** The invocations of a window settle in the order they were issued. *)
Definition inOrder (_ : nat) : list nat := [0; 1].
End FlakyRunnable.

(** ** Chat model data (schema/index.ts, callbacks/manager.ts) *)

(** A role-tagged message; [BaseMessageChunk] has the same fields. *)
Record BaseMessage : Type := MkMessage {
  msgType : string;
  content : string;
}.

(** Modelled from the spec: the message classes [HumanMessage] and
    [AIMessage] (schema/index.ts) are not part of the excerpt.  Following
    "role-tagged text content (e.g., human, AI)", [new HumanMessage(text)]
    and [new AIMessage(text)] are the messages with that text as content
    and the role of the class. *)
Definition HumanMessage (text_ : string) : BaseMessage := MkMessage "human" text_.

Definition AIMessage (text_ : string) : BaseMessage := MkMessage "ai" text_.

(** [ChatGeneration]; a [ChatGenerationChunk] has the same fields. *)
Record ChatGeneration : Type := MkGeneration {
  text : string;
  message : BaseMessage;
  generationInfo : option Obj;
}.

(** [ChatResult], what the generation primitive returns. *)
Record ChatResult : Type := MkChatResult {
  cr_generations : list ChatGeneration;
  cr_llmOutput : option Obj;
}.

(** [LLMResult]; [lr_runIds] is the property stored under [RUN_KEY]. *)
Record LLMResult : Type := MkLLMResult {
  lr_generations : list (list ChatGeneration);
  lr_llmOutput : option Obj;
  lr_runIds : option (list nat);
}.

(** Callback handlers are identified by name. *)
Definition Callbacks : Type := list string.

(** [AbortSignal]: one built by [AbortSignal.timeout(ms)], or one supplied
    by the caller. *)
Inductive AbortSignal : Type :=
  | SignalTimeout (ms : Z)
  | SignalOfCaller (id : nat).

(** [RunnableConfig = BaseCallbackConfig]. *)
Record RunnableConfig : Type := MkRunnableConfig {
  rc_callbacks : option Callbacks;
  rc_tags : option (list string);
  rc_metadata : option Obj;
}.

(** The call options of a chat model: [RunnableConfig] together with
    [BaseLanguageModelCallOptions], and [promptIndex], which [generate]
    adds.  An absent property is [None]. *)
Record CallOptions : Type := MkCallOptions {
  callbacks : option Callbacks;
  tags : option (list string);
  metadata : option Obj;
  stop : option (list string);
  timeout : option Z;
  signal : option AbortSignal;
  promptIndex : option nat;
}.

(** The empty object [{}]. *)
Definition emptyCallOptions : CallOptions :=
  MkCallOptions None None None None None None None.

(** The handle of one run, [CallbackManagerForLLMRun]. *)
Record CallbackManagerForLLMRun : Type := MkRunManager {
  runId : nat;
}.

(** A configured [CallbackManager]. *)
Record CallbackManager : Type := MkCallbackManager {
  cm_handlers : Callbacks;
  cm_tags : list string;
  cm_metadata : Obj;
}.

(** The [extra] argument of [handleChatModelStart]. *)
Record Extra : Type := MkExtra {
  extra_options : CallOptions;
  invocation_params : Obj;
}.

(** What the collaborators of a chat model observe, in order: the
    notifications received by the callback handlers, and the calls made to
    the primitives of the concrete model. *)
Inductive Event : Type :=
  | EvChatModelStart (run : nat) (messages : list BaseMessage) (extra : Extra)
  | EvLLMEnd (run : nat) (generations : list (list (option ChatGeneration)))
      (llmOutput : option Obj)
  | EvLLMError (run : nat) (err : Error)
  | EvGenerate (messages : list BaseMessage) (options : CallOptions)
      (runManager : option CallbackManagerForLLMRun)
  | EvStreamResponseChunks (messages : list BaseMessage) (options : CallOptions)
      (runManager : option CallbackManagerForLLMRun).

(** The state threaded through a call: the next fresh run identifier and
    the events so far. *)
Record World : Type := MkWorld {
  nextRunId : nat;
  log : list Event;
}.

Definition emit (evs : list Event) (w : World) : World :=
  MkWorld (nextRunId w) (log w ++ evs).

Definition isStart (ev : Event) : bool :=
  match ev with EvChatModelStart _ _ _ => true | _ => false end.

Definition isEnd (ev : Event) : bool :=
  match ev with EvLLMEnd _ _ _ => true | _ => false end.

Definition isError (ev : Event) : bool :=
  match ev with EvLLMError _ _ => true | _ => false end.

Definition isGenerate (ev : Event) : bool :=
  match ev with EvGenerate _ _ _ => true | _ => false end.

(** The event closes the run [run]: an end or an error notification
    delivered to that run's handle. *)
Definition closesRun (run : nat) (ev : Event) : bool :=
  match ev with
  | EvLLMEnd r _ _ | EvLLMError r _ => Nat.eqb r run
  | _ => false
  end.

Definition count (p : Event → bool) (evs : list Event) : nat :=
  length (List.filter p evs).

(** The events added to the log of [w] to reach the log of [w']. *)
Definition newEvents (w w' : World) : list Event :=
  drop (length (log w)) (log w').

(** Modelled from the spec: [CallbackManager.handleChatModelStart] is not
    part of the excerpt.  Following "notify it that a chat-model run is
    starting for each input message-list; receive one run-manager handle
    per message-list", it issues one start notification per message-list,
    each under a fresh run identifier, and returns the handles in the
    order of the message-lists. *)
Definition handleChatModelStart (cm : CallbackManager)
    (messages : list (list BaseMessage)) (extra : Extra) (w : World)
    : list CallbackManagerForLLMRun * World :=
  (imap (λ i _, MkRunManager (nextRunId w + i)) messages,
   MkWorld (nextRunId w + length messages)
     (log w ++ imap (λ i m, EvChatModelStart (nextRunId w + i) m extra) messages)).

(** Modelled from the spec: [CallbackManagerForLLMRun.handleLLMEnd] is not
    part of the excerpt.  Following "each handle exposes
    [handleLLMEnd(result)] and [handleLLMError(error)]", it delivers the end
    notification, with the result, to the handlers of that run; the
    notification itself does not fail. *)
Definition handleLLMEnd (runManager : CallbackManagerForLLMRun)
    (generations : list (list (option ChatGeneration)))
    (llmOutput : option Obj) : Event :=
  EvLLMEnd (runId runManager) generations llmOutput.

(** Modelled from the spec: [CallbackManagerForLLMRun.handleLLMError] is
    not part of the excerpt; it delivers the error notification, with the
    error, to the handlers of that run. *)
Definition handleLLMError (runManager : CallbackManagerForLLMRun)
    (err : Error) : Event :=
  EvLLMError (runId runManager) err.

(** [ChatGenerationChunk.concat] and the [BaseMessageChunk.concat] it
    relies on live in schema/index.ts, outside the excerpt. *)
Module ChatGenerationChunk.
(** Modelled from the spec: [BaseMessageChunk.concat] is not part of the
    excerpt.  Following "concatenation must be order-preserving", the
    contents are concatenated in order; the message keeps the role of the
    first chunk. *)
Definition concatMessage (m1 m2 : BaseMessage) : BaseMessage :=
  MkMessage (msgType m1) (content m1 +:+ content m2).

(** Modelled from the spec: the merge of the metadata of two chunks,
    following "must correctly merge ... partial metadata": the fields of
    both objects, a field of the later chunk replacing the same field of
    the earlier one. *)
Definition mergeInfo (i1 i2 : option Obj) : option Obj :=
  Some (default ∅ i2 ∪ default ∅ i1).

(** Modelled from the spec: [ChatGenerationChunk.concat] is not part of
    the excerpt.  Following "chunks are associatively combinable into a
    single GenerationResult (concatenation must be order-preserving and
    must correctly merge partial text and partial metadata)", the texts
    and the messages are concatenated in order and the metadata merged. *)
Definition concat (this chunk : ChatGeneration) : ChatGeneration :=
  MkGeneration (text this +:+ text chunk)
    (concatMessage (message this) (message chunk))
    (mergeInfo (generationInfo this) (generationInfo chunk)).
End ChatGenerationChunk.

(** ** BaseChatModel (chat_models/base.ts) *)
Module BaseChatModel.

(** A concrete chat model: the instance fields read by the base class and
    the methods a subclass provides.  [_streamResponseChunks = None] is a
    model that inherits the base implementation (the one that throws), so
    that [this._streamResponseChunks ===
    BaseChatModel.prototype._streamResponseChunks] holds. *)
Record t : Type := Mk {
  self_callbacks : option Callbacks;
  self_tags : option (list string);
  self_metadata : option Obj;
  verbose : bool;
  _generate : list BaseMessage → CallOptions →
              option CallbackManagerForLLMRun → Promise ChatResult;
  _combineLLMOutput : option (list (option Obj) → option Obj);
  _streamResponseChunks :
    option (list BaseMessage → CallOptions →
            option CallbackManagerForLLMRun → Stream ChatGeneration);
  invocationParams : CallOptions → Obj;
}.

(** The inherited [_streamResponseChunks] of the base class:
    [throw new Error("Not implemented.")] before any chunk. *)
Definition base_streamResponseChunks (_messages : list BaseMessage)
    (_options : CallOptions) (_runManager : option CallbackManagerForLLMRun)
    : Stream ChatGeneration :=
  MkStream [] (Rejected NotImplemented).

(** The [options] argument of [generate]:
    [string[] | CallOptions | undefined]. *)
Inductive GenerateOptions : Type :=
  | NoOptions
  | StopList (stop : list string)
  | Options (o : CallOptions).

(** [Runnable._separateRunnableConfigFromCallOptions], at the call options
    of a chat model: the three callback properties are copied into the
    run configuration and deleted from a copy of the options. *)
Definition super_separateRunnableConfigFromCallOptions (options : CallOptions)
    : RunnableConfig * CallOptions :=
  (MkRunnableConfig (callbacks options) (tags options) (metadata options),
   MkCallOptions None None None (stop options) (timeout options)
     (signal options) (promptIndex options)).

(** [callOptions?.timeout && !callOptions.signal]: a number is truthy when
    it is not zero, a signal object always is. *)
Definition needsTimeoutSignal (callOptions : CallOptions) : option Z :=
  match timeout callOptions, signal callOptions with
  | Some ms, None => if Z.eqb ms 0 then None else Some ms
  | _, _ => None
  end.

(** [BaseChatModel._separateRunnableConfigFromCallOptions]. *)
Definition _separateRunnableConfigFromCallOptions (options : CallOptions)
    : RunnableConfig * CallOptions :=
  let '(runnableConfig, callOptions) :=
    super_separateRunnableConfigFromCallOptions options in
  match needsTimeoutSignal callOptions with
  | Some ms =>
      (runnableConfig,
       MkCallOptions (callbacks callOptions) (tags callOptions)
         (metadata callOptions) (stop callOptions) (timeout callOptions)
         (Some (SignalTimeout ms)) (promptIndex callOptions))
  | None => (runnableConfig, callOptions)
  end.

(** [{ ...parsedOptions, promptIndex: i }]. *)
Definition withPromptIndex (parsedOptions : CallOptions) (i : nat) : CallOptions :=
  MkCallOptions (callbacks parsedOptions) (tags parsedOptions)
    (metadata parsedOptions) (stop parsedOptions) (timeout parsedOptions)
    (signal parsedOptions) (Some i).

(** [a ?? b]. *)
Definition nullish {A} (a b : option A) : option A :=
  match a with Some _ => a | None => b end.

(** The chunk accumulation of [_streamIterator]:
    [if (!generationChunk) generationChunk = chunk;
     else generationChunk = generationChunk.concat(chunk)]. *)
Definition accumulate (generationChunk : option ChatGeneration)
    (chunk : ChatGeneration) : option ChatGeneration :=
  match generationChunk with
  | None => Some chunk
  | Some g => Some (ChatGenerationChunk.concat g chunk)
  end.

(** The value of [generationChunk] after the chunks have been consumed,
    starting from [undefined]. *)
Definition foldChunks (chunks : list ChatGeneration) : option ChatGeneration :=
  foldl accumulate None chunks.

Section Operations.
(** [CallbackManager.configure(inheritableHandlers, localHandlers,
    inheritableTags, localTags, inheritableMetadata, localMetadata,
    { verbose })] is not part of the excerpt; its result may be
    [undefined], which is why every use in this class goes through
    optional chaining. *)
Variable configure :
  option Callbacks → option Callbacks →
  option (list string) → option (list string) →
  option Obj → option Obj → bool → option CallbackManager.

(** [BaseLanguageModelInput], [BasePromptValue] and the two conversions
    [_convertInputToPromptValue] and [toChatMessages] are declared
    elsewhere. *)
Context {BaseLanguageModelInput BasePromptValue : Type}.
Variable _convertInputToPromptValue : BaseLanguageModelInput → BasePromptValue.
Variable toChatMessages : BasePromptValue → list BaseMessage.

(** [runManagers?.[i]]. *)
Definition runManagerAt (runManagers : option (list CallbackManagerForLLMRun))
    (i : nat) : option CallbackManagerForLLMRun :=
  runManagers ≫= (λ rms, rms !! i).

(** [callbackManager_?.handleChatModelStart(this.toJSON(), messages,
    undefined, undefined, extra)]. *)
Definition startRuns (callbackManager_ : option CallbackManager)
    (messages : list (list BaseMessage)) (extra : Extra) (w : World)
    : option (list CallbackManagerForLLMRun) * World :=
  match callbackManager_ with
  | Some cm =>
      let '(runManagers, w') := handleChatModelStart cm messages extra w in
      (Some runManagers, w')
  | None => (None, w)
  end.

(** The beginning of [generate]: the options are parsed. *)
Definition parseOptions (options : GenerateOptions) : CallOptions :=
  match options with
  | StopList stop_ =>
      MkCallOptions None None None (Some stop_) None None None
  | Options o => o
  | NoOptions => emptyCallOptions
  end.

(** [generate], "create callback manager": the value of
    [callbackManager_]. *)
Definition configuredManager (self : t) (parsedOptions : CallOptions)
    (callbacks_ : option Callbacks) : option CallbackManager :=
  let runnableConfig := (_separateRunnableConfigFromCallOptions parsedOptions).1 in
  configure (nullish (rc_callbacks runnableConfig) callbacks_)
    (self_callbacks self) (rc_tags runnableConfig) (self_tags self)
    (rc_metadata runnableConfig) (self_metadata self) (verbose self).

(** [generate], the [extra] passed with the start notifications. *)
Definition generateExtra (self : t) (parsedOptions : CallOptions) : Extra :=
  let callOptions := (_separateRunnableConfigFromCallOptions parsedOptions).2 in
  MkExtra callOptions (invocationParams self parsedOptions).

(** [generate], "create callback manager and start run": the handles of
    the runs, one per message-list when there is a callback manager. *)
Definition generateStart (self : t) (messages : list (list BaseMessage))
    (parsedOptions : CallOptions) (callbacks_ : option Callbacks) (w : World)
    : option (list CallbackManagerForLLMRun) * World :=
  startRuns (configuredManager self parsedOptions callbacks_) messages
    (generateExtra self parsedOptions) w.

(** The arguments of one call to [_generate]. *)
Definition GenerateCall : Type :=
  list BaseMessage * CallOptions * option CallbackManagerForLLMRun.

(** [generate], "generate results": the arguments of the call to
    [_generate] for each message-list,
    [(messageList, { ...parsedOptions, promptIndex: i }, runManagers?.[i])]. *)
Definition generateCalls (messages : list (list BaseMessage))
    (parsedOptions : CallOptions)
    (runManagers : option (list CallbackManagerForLLMRun))
    : list GenerateCall :=
  imap (λ i messageList,
          (messageList, withPromptIndex parsedOptions i,
           runManagerAt runManagers i)) messages.

Definition callGenerate (self : t) (c : GenerateCall) : Promise ChatResult :=
  _generate self c.1.1 c.1.2 c.2.

Definition generateEvent (c : GenerateCall) : Event :=
  EvGenerate c.1.1 c.1.2 c.2.

(** [generate], "handle results": the notification sent for the result
    at index [i], none when that index has no handle. *)
Definition resultNotification
    (runManagers : option (list CallbackManagerForLLMRun))
    (i : nat) (pResult : Promise ChatResult) : list Event :=
  match pResult, runManagerAt runManagers i with
  | Fulfilled result, Some rm =>
      [handleLLMEnd rm [Some <$> cr_generations result] (cr_llmOutput result)]
  | Rejected reason, Some rm => [handleLLMError rm reason]
  | _, _ => []
  end.

(** [generate], "create combined output". *)
Definition combinedOutput (self : t) (results : list ChatResult)
    (runManagers : option (list CallbackManagerForLLMRun)) : LLMResult :=
  let generations := cr_generations <$> results in
  let llmOutputs := cr_llmOutput <$> results in
  MkLLMResult generations
    (match llmOutputs, _combineLLMOutput self with
     | _ :: _, Some combine => combine llmOutputs
     | _, _ => None
     end)
    ((λ rms : list CallbackManagerForLLMRun, runId <$> rms) <$> runManagers).

(** [generate(messages, options, callbacks)].  All the primitives are
    called, then all of them are awaited ([Promise.allSettled]); the
    results are then visited in index order, each notification being
    issued during that visit.  The visit of a fulfilled result fulfils and
    the visit of a rejected result rejects with its reason; the promises
    of the visits are awaited together ([Promise.all]), [order] being the
    order in which they settle. *)
Definition generate (self : t) (messages : list (list BaseMessage))
    (options : GenerateOptions) (callbacks_ : option Callbacks)
    (order : list nat) (w : World) : Promise LLMResult * World :=
  let parsedOptions := parseOptions options in
  let '(runManagers, w1) :=
    generateStart self messages parsedOptions callbacks_ w in
  let calls := generateCalls messages parsedOptions runManagers in
  let w2 := emit (generateEvent <$> calls) w1 in
  match allSettled (callGenerate self <$> calls) with
  | None => (Pending, w2)
  | Some results =>
      let w3 := emit (mjoin (imap (resultNotification runManagers) results)) w2 in
      match promiseAll results order with
      | Fulfilled values => (Fulfilled (combinedOutput self values runManagers), w3)
      | Rejected reason => (Rejected reason, w3)
      | Pending => (Pending, w3)
      end
  end.

(** The handles [runManagers] of a call to [generate], and the calls it
    makes to the generation primitive. *)
Definition issuedHandles (self : t) (messages : list (list BaseMessage))
    (options : GenerateOptions) (callbacks_ : option Callbacks) (w : World)
    : option (list CallbackManagerForLLMRun) :=
  (generateStart self messages (parseOptions options) callbacks_ w).1.

Definition issuedCalls (self : t) (messages : list (list BaseMessage))
    (options : GenerateOptions) (callbacks_ : option Callbacks) (w : World)
    : list GenerateCall :=
  generateCalls messages (parseOptions options)
    (issuedHandles self messages options callbacks_ w).

(** [generatePrompt(promptValues, options, callbacks)]. *)
Definition generatePrompt (self : t) (promptValues : list BasePromptValue)
    (options : GenerateOptions) (callbacks_ : option Callbacks)
    (order : list nat) (w : World) : Promise LLMResult * World :=
  generate self (toChatMessages <$> promptValues) options callbacks_ order w.

(** [invoke(input, options)]: [result.generations[0][0].message], a
    [TypeError] when there is no such generation. *)
Definition invoke (self : t) (input : BaseLanguageModelInput)
    (options : option CallOptions) (order : list nat) (w : World)
    : Promise BaseMessage * World :=
  let promptValue := _convertInputToPromptValue input in
  let '(result, w') :=
    generatePrompt self [promptValue]
      (match options with Some o => Options o | None => NoOptions end)
      (options ≫= callbacks) order w in
  (match result with
   | Fulfilled result =>
       match lr_generations result !! 0 ≫= (λ gens, gens !! 0) with
       | Some chatGeneration => Fulfilled (message chatGeneration)
       | None => Rejected (TypeError "Cannot read properties of undefined")
       end
   | Rejected reason => Rejected reason
   | Pending => Pending
   end, w').

(** [_streamIterator(input, options)]: the chunks yielded, how the
    generator finishes, and the events issued while it is drained. *)
Definition _streamIterator (self : t) (input : BaseLanguageModelInput)
    (options : option CallOptions) (order : list nat) (w : World)
    : Stream BaseMessage * World :=
  match _streamResponseChunks self with
  | None =>
      let '(result, w') := invoke self input options order w in
      (match result with
       | Fulfilled v => MkStream [v] (Fulfilled tt)
       | Rejected reason => MkStream [] (Rejected reason)
       | Pending => MkStream [] Pending
       end, w')
  | Some produce =>
      let prompt := _convertInputToPromptValue input in
      let messages := toChatMessages prompt in
      let '(runnableConfig, callOptions) :=
        _separateRunnableConfigFromCallOptions
          (default emptyCallOptions options) in
      let callbackManager_ :=
        configure (rc_callbacks runnableConfig) (self_callbacks self)
          (rc_tags runnableConfig) (self_tags self)
          (rc_metadata runnableConfig) (self_metadata self) (verbose self) in
      let extra := MkExtra callOptions (invocationParams self callOptions) in
      let '(runManagers, w1) :=
        startRuns callbackManager_ [messages] extra w in
      let w2 :=
        emit [EvStreamResponseChunks messages callOptions
                (runManagerAt runManagers 0)] w1 in
      let chunks := produce messages callOptions (runManagerAt runManagers 0) in
      let generationChunk := foldChunks (yielded chunks) in
      match finish chunks with
      | Fulfilled _ =>
          (MkStream (message <$> yielded chunks) (Fulfilled tt),
           emit ((λ rm, handleLLMEnd rm [[generationChunk]] None)
                   <$> default [] runManagers) w2)
      | Rejected err =>
          (MkStream (message <$> yielded chunks) (Rejected err),
           emit ((λ rm, handleLLMError rm err) <$> default [] runManagers) w2)
      | Pending => (MkStream (message <$> yielded chunks) Pending, w2)
      end
  end.

(** [call(messages, options, callbacks)]: [generations[0][0].message] of
    [generate([messages], ...)], a [TypeError] when there is no such
    generation. *)
Definition call (self : t) (messages : list BaseMessage)
    (options : GenerateOptions) (callbacks_ : option Callbacks)
    (order : list nat) (w : World) : Promise BaseMessage * World :=
  let '(result, w') := generate self [messages] options callbacks_ order w in
  (match result with
   | Fulfilled result =>
       match lr_generations result !! 0 ≫= (λ gens, gens !! 0) with
       | Some chatGeneration => Fulfilled (message chatGeneration)
       | None => Rejected (TypeError "Cannot read properties of undefined")
       end
   | Rejected reason => Rejected reason
   | Pending => Pending
   end, w').

(** [callPrompt(promptValue, options, callbacks)]. *)
Definition callPrompt (self : t) (promptValue : BasePromptValue)
    (options : GenerateOptions) (callbacks_ : option Callbacks)
    (order : list nat) (w : World) : Promise BaseMessage * World :=
  call self (toChatMessages promptValue) options callbacks_ order w.

(** [predictMessages(messages, options, callbacks)]. *)
Definition predictMessages (self : t) (messages : list BaseMessage)
    (options : GenerateOptions) (callbacks_ : option Callbacks)
    (order : list nat) (w : World) : Promise BaseMessage * World :=
  call self messages options callbacks_ order w.

(** [predict(text, options, callbacks)]: the content of the message
    returned by [call([new HumanMessage(text)], ...)]. *)
Definition predict (self : t) (text_ : string)
    (options : GenerateOptions) (callbacks_ : option Callbacks)
    (order : list nat) (w : World) : Promise string * World :=
  let message_ := HumanMessage text_ in
  let '(result, w') := call self [message_] options callbacks_ order w in
  (match result with
   | Fulfilled result => Fulfilled (content result)
   | Rejected reason => Rejected reason
   | Pending => Pending
   end, w').
End Operations.
End BaseChatModel.

(** ** SimpleChatModel (chat_models/base.ts) *)
Module SimpleChatModel.

(** [_generate(messages, options, runManager)] of a [SimpleChatModel]
    whose abstract method is [_call]: the text is wrapped in an
    [AIMessage], the only generation of the result. *)
Definition _generate
    (_call : list BaseMessage → CallOptions →
             option CallbackManagerForLLMRun → Promise string)
    (messages : list BaseMessage) (options : CallOptions)
    (runManager : option CallbackManagerForLLMRun) : Promise ChatResult :=
  match _call messages options runManager with
  | Fulfilled text_ =>
      let message_ := AIMessage text_ in
      Fulfilled (MkChatResult [MkGeneration (content message_) message_ None] None)
  | Rejected reason => Rejected reason
  | Pending => Pending
  end.

(** The chat model obtained from the instance fields and the remaining
    methods of [fields] by taking [_generate] from [_call]. *)
Definition model (fields : BaseChatModel.t)
    (_call : list BaseMessage → CallOptions →
             option CallbackManagerForLLMRun → Promise string)
    : BaseChatModel.t :=
  BaseChatModel.Mk (BaseChatModel.self_callbacks fields)
    (BaseChatModel.self_tags fields) (BaseChatModel.self_metadata fields)
    (BaseChatModel.verbose fields) (_generate _call)
    (BaseChatModel._combineLLMOutput fields)
    (BaseChatModel._streamResponseChunks fields)
    (BaseChatModel.invocationParams fields).
End SimpleChatModel.

(** A concrete chat model used to run the operations. *)
Module HelloChat.
Import BaseChatModel.

(** An instance of [CallbackManager.configure]: a manager is built when
    there is a handler to notify or when the model is verbose, and the
    result is [undefined] otherwise. *)
Definition configure (inheritableHandlers localHandlers : option Callbacks)
    (inheritableTags localTags : option (list string))
    (inheritableMetadata localMetadata : option Obj) (verbose_ : bool)
    : option CallbackManager :=
  match inheritableHandlers, localHandlers, verbose_ with
  | None, None, false => None
  | _, _, _ =>
      Some (MkCallbackManager
              (default [] inheritableHandlers ++ default [] localHandlers)
              (default [] inheritableTags ++ default [] localTags)
              (default ∅ localMetadata ∪ default ∅ inheritableMetadata))
  end.

Definition human (s : string) : BaseMessage := MkMessage "human" s.

Definition hello : ChatResult :=
  MkChatResult [MkGeneration "hello" (MkMessage "ai" "hello") None] None.

(** The generation primitive answers "hello", except on a message-list
    that starts with the message "fail", on which it throws. *)
Definition _generate (messages : list BaseMessage) (options : CallOptions)
    (runManager : option CallbackManagerForLLMRun) : Promise ChatResult :=
  match messages with
  | m :: _ =>
      if String.eqb (content m) "fail"
      then Rejected (Thrown "model failure")
      else Fulfilled hello
  | [] => Fulfilled hello
  end.

(** The chunk producer of the streaming variant: "hel" then "lo". *)
Definition _streamResponseChunks (messages : list BaseMessage)
    (options : CallOptions) (runManager : option CallbackManagerForLLMRun)
    : Stream ChatGeneration :=
  MkStream [MkGeneration "hel" (MkMessage "ai" "hel") None;
            MkGeneration "lo" (MkMessage "ai" "lo") None] (Fulfilled tt).

(** The model, with the handlers registered on the instance. *)
Definition model (handlers : option Callbacks) : BaseChatModel.t :=
  Mk handlers None None false _generate None None (λ _, ∅).

(** The same model with the chunk producer overridden. *)
Definition streamingModel (handlers : option Callbacks) : BaseChatModel.t :=
  Mk handlers None None false _generate None (Some _streamResponseChunks)
    (λ _, ∅).

Definition initial : World := MkWorld 0 [].

(** Call options carrying only a timeout of one second. *)
Definition timeoutOnly : CallOptions :=
  MkCallOptions None None None None (Some 1000%Z) None None.

(** A model whose primitive fulfils with no generation at all. *)
Definition silentModel (handlers : option Callbacks) : BaseChatModel.t :=
  Mk handlers None None false (λ _ _ _, Fulfilled (MkChatResult [] None))
    None None (λ _, ∅).

(** The [_call] of a simple chat model: it answers with the content of
    the first message. *)
Definition _call (messages : list BaseMessage) (options : CallOptions)
    (runManager : option CallbackManagerForLLMRun) : Promise string :=
  match messages with
  | m :: _ => Fulfilled (content m)
  | [] => Rejected (Thrown "no message")
  end.
End HelloChat.

(** ** MongoDBAtlasVectorSearch (vectorstores/mongodb_atlas.ts) *)
Module MongoDBAtlasVectorSearch.

(** [Document]: the page content and the metadata object. *)
Record Document : Type := MkDocument {
  pageContent : string;
  metadata : Obj;
}.

(** [MongoDBAtlasVectorSearchLibArgs], without the collection. *)
Record LibArgs : Type := MkLibArgs {
  args_indexName : option string;
  args_textKey : option string;
  args_embeddingKey : option string;
}.

(** The fields of an instance set by the constructor. *)
Record t : Type := Mk {
  indexName : string;
  textKey : string;
  embeddingKey : string;
}.

(** [constructor(embeddings, args)]. *)
Definition constructor (args : LibArgs) : t :=
  Mk (default "default" (args_indexName args))
     (default "text" (args_textKey args))
     (default "embedding" (args_embeddingKey args)).

(** The collection of the backing store, a collaborator outside the
    repository, is represented by the records inserted so far, in
    insertion order; [insertMany] adds the given records. *)
Abbreviation Collection := (list Obj).

Definition insertMany (docs : list Obj) (collection : Collection) : Collection :=
  collection ++ docs.

(** The object literal built for one vector in [addVectors]:
    [{ [this.textKey]: pageContent, [this.embeddingKey]: embedding,
       ...metadata }].  A later property replaces an earlier one with the
    same key. *)
Definition vectorRecord (self : t) (embedding : list Z) (document : Document)
    : Obj :=
  metadata document
  ∪ <[embeddingKey self := JArr (JNum <$> embedding)]>
      (<[textKey self := JStr (pageContent document)]> ∅).

(** The callback of [vectors.map] at index [idx]: reading [.pageContent]
    of [documents[idx]] throws when there is no document at that index. *)
Definition vectorRecordAt (self : t) (documents : list Document)
    (idx : nat) (embedding : list Z) : option Obj :=
  vectorRecord self embedding <$> documents !! idx.

(** [addVectors(vectors, documents)]: the outcome and the collection
    afterwards.  [insertMany] is reached only when the whole [map] has
    run. *)
Definition addVectors (self : t) (vectors : list (list Z))
    (documents : list Document) (collection : Collection)
    : Promise unit * Collection :=
  match mapM id (imap (vectorRecordAt self documents) vectors) with
  | Some docs => (Fulfilled tt, insertMany docs collection)
  | None =>
      (Rejected (TypeError "Cannot read properties of undefined"), collection)
  end.

(** The initial [knnBeta] request. *)
Definition knnBetaRequest (self : t) (query : list Z) (k : Z) : Obj :=
  <["k" := JNum k]>
    (<["path" := JStr (embeddingKey self)]>
       (<["vector" := JArr (JNum <$> query)]> ∅)).

(** The two fixed stages of the pipeline, [$search] and [$project]. *)
Definition searchStages (self : t) (knnBeta : Obj) : list JsVal :=
  [JObj (<["$search" :=
            JObj (<["knnBeta" := JObj knnBeta]>
                    (<["index" := JStr (indexName self)]> ∅))]> ∅);
   JObj (<["$project" :=
            JObj (<["score" := JObj (<["$meta" := JStr "searchScore"]> ∅)]>
                    (<[embeddingKey self := JNum 0]> ∅))]> ∅)].

(** [...v] inside [push]: the elements of an array, the characters of a
    string; any other value is not iterable. *)
Definition spread (v : JsVal) : Error + list JsVal :=
  match v with
  | JArr l => inr l
  | JStr s => inr ((λ a, JStr (String a EmptyString)) <$> String.list_ascii_of_string s)
  | _ => inl (TypeError "not iterable")
  end.

(** Property access on a possibly [undefined] filter, [filter?.name]. *)
Definition field (filter : option Obj) (name : string) : option JsVal :=
  filter ≫= (λ m : Obj, m !! name).

(** The choice of [preFilter] and [postFilterPipeline]:
    [if (filter?.preFilter || filter?.postFilterPipeline) {...}
     else preFilter = filter]. *)
Definition splitFilter (filter : option Obj)
    : option JsVal * option JsVal :=
  if truthy_opt (field filter "preFilter")
     || truthy_opt (field filter "postFilterPipeline")
  then (field filter "preFilter", field filter "postFilterPipeline")
  else (JObj <$> filter, None).

(** The pipeline handed to [collection.aggregate] by
    [similaritySearchVectorWithScore(query, k, filter)]. *)
Definition searchPipeline (self : t) (query : list Z) (k : Z)
    (filter : option Obj) : Error + list JsVal :=
  let knnBeta := knnBetaRequest self query k in
  let '(preFilter, postFilterPipeline) := splitFilter filter in
  let knnBeta :=
    match preFilter with
    | Some v => if truthy v then <["filter" := v]> knnBeta else knnBeta
    | None => knnBeta
    end in
  let pipeline := searchStages self knnBeta in
  match postFilterPipeline with
  | Some v =>
      if truthy v then
        match spread v with
        | inr stages => inr (pipeline ++ stages)
        | inl e => inl e
        end
      else inr pipeline
  | None => inr pipeline
  end.



(** The filter has the shape its type gives it,
    [{ preFilter?: MongoDBDocument; postFilterPipeline?: MongoDBDocument[] }
     & MongoDBDocument]: a [preFilter] property holds an object and a
    [postFilterPipeline] property holds an array. *)
Definition wellTyped (filter : Obj) : Prop :=
  (∀ v, filter !! "preFilter" = Some v → ∃ m, v = JObj m)
  ∧ (∀ v, filter !! "postFilterPipeline" = Some v → ∃ l, v = JArr l).

(** The [metadatas] argument of [fromTexts]: [object[] | object]. *)
Inductive Metadatas : Type :=
  | MetadataList (l : list Obj)
  | MetadataShared (m : Obj).

(** [new Document({ pageContent, metadata })]; the class is declared in
    document.ts, outside the excerpt.  A missing [metadata] is taken to be
    the empty object. *)
Definition newDocument (pageContent_ : string) (metadata_ : option Obj)
    : Document :=
  MkDocument pageContent_ (default ∅ metadata_).

(** The loop of [fromTexts]: one document per text, with
    [Array.isArray(metadatas) ? metadatas[i] : metadatas] as metadata. *)
Definition fromTextsDocs (texts : list string) (metadatas : Metadatas)
    : list Document :=
  imap (λ i text_,
          newDocument text_
            (match metadatas with
             | MetadataList l => l !! i
             | MetadataShared m => Some m
             end)) texts.

Section WithEmbeddings.
(** [embeddings.embedDocuments(texts)], the embedding provider. *)
Variable embedDocuments : list string → Promise (list (list Z)).

(** [addDocuments(documents)]. *)
Definition addDocuments (self : t) (documents : list Document)
    (collection : Collection) : Promise unit * Collection :=
  let texts := pageContent <$> documents in
  match embedDocuments texts with
  | Fulfilled vectors => addVectors self vectors documents collection
  | Rejected reason => (Rejected reason, collection)
  | Pending => (Pending, collection)
  end.


End WithEmbeddings.
End MongoDBAtlasVectorSearch.

(** A store with the default keys, and two documents. *)
Module AtlasExample.
Import MongoDBAtlasVectorSearch.

Definition store : t := constructor (MkLibArgs None None None).

Definition plain : Document := MkDocument "first text" (<["a" := JNum 1]> ∅).

(** A document whose metadata has a property named like the text key. *)
Definition shadowing : Document :=
  MkDocument "second text" (<["text" := JStr "from metadata"]> ∅).

(** A filter with both explicit fields and one more property. *)
Definition structured : Obj :=
  <["preFilter" := JObj (<["genre" := JStr "drama"]> ∅)]>
    (<["postFilterPipeline" := JArr [JObj (<["$limit" := JNum 1]> ∅)]]>
       (<["year" := JNum 1999]> ∅)).

(** An embedding provider: one vector per text, holding its length. *)
Definition embedDocuments (texts : list string) : Promise (list (list Z)) :=
  Fulfilled ((λ t, [Z.of_nat (String.length t)]) <$> texts).

End AtlasExample.
(** ** Facts about the promise combinators *)
Section PromiseFacts.
Context {A : Type}.
Implicit Types (ps : list (Promise A)) (vs : list A) (order : list nat).

Lemma slotsValues_Some vs : slotsValues (Some <$> vs) = Some vs.
Proof.
  unfold slotsValues. apply mapM_Some_2.
  induction vs as [|v vs IH]; constructor; done.
Qed.

(** Processing the remaining settlements fills every slot that is still
    empty, each with the value of the promise at the same index. *)
Lemma promiseAllFrom_fulfilled vs order (slots : list (option A)) :
  length slots = length vs →
  (∀ k v, slots !! k = Some (Some v) → vs !! k = Some v) →
  (∀ k, k < length vs → k ∈ order ∨ is_Some (slots !! k ≫= id)) →
  promiseAllFrom (Fulfilled <$> vs) order slots = Fulfilled vs.
Proof.
  revert slots. induction order as [|k order IH]; intros slots Hlen Hval Hcov.
  - simpl. assert (slots = Some <$> vs) as ->; [|by rewrite slotsValues_Some].
    apply list_eq. intros k. rewrite list_lookup_fmap.
    destruct (decide (k < length vs)) as [Hk|Hk].
    + destruct (Hcov k Hk) as [Hin|[v Hv]]; [by apply elem_of_nil in Hin|].
      destruct (slots !! k) as [[w|]|] eqn:E; simplify_eq/=.
      by rewrite (Hval k v E).
    + rewrite !lookup_ge_None_2; [done|lia..].
  - simpl. rewrite list_lookup_fmap.
    destruct (vs !! k) as [v|] eqn:Ev; simpl.
    + apply IH.
      * by rewrite length_insert.
      * intros j w Hj. destruct (decide (k = j)) as [->|Hne].
        -- rewrite list_lookup_insert_eq in Hj; [congruence|].
           rewrite Hlen. by eapply lookup_lt_Some.
        -- by rewrite list_lookup_insert_ne in Hj; [apply Hval|].
      * intros j Hj. destruct (decide (k = j)) as [->|Hne].
        -- right. rewrite list_lookup_insert_eq; [by eexists|].
           by rewrite Hlen.
        -- rewrite list_lookup_insert_ne; [|done].
           destruct (Hcov j Hj) as [Hin|?]; [|by right].
           apply elem_of_cons in Hin as [?|?]; [congruence|by left].
    + apply IH; [done..|]. intros j Hj.
      destruct (Hcov j Hj) as [Hin|?]; [|by right].
      apply elem_of_cons in Hin as [->|?]; [|by left].
      apply lookup_lt_is_Some_2 in Hj as [? ?]. congruence.
Qed.

(** [Promise.all] of promises that all fulfil yields their values in
    index order, whatever the order in which they settle. *)
Lemma promiseAll_fulfilled vs order :
  (∀ k, k < length vs → k ∈ order) →
  promiseAll (Fulfilled <$> vs) order = Fulfilled vs.
Proof.
  intros Hcov. unfold promiseAll. apply promiseAllFrom_fulfilled.
  - by rewrite length_replicate, length_fmap.
  - intros k v Hk. apply lookup_replicate in Hk as [? _]. done.
  - intros k Hk. left. by apply Hcov.
Qed.

(** When every rejection among the inputs carries the same reason and
    one of the rejected promises settles, [Promise.all] rejects with
    that reason. *)
Lemma promiseAllFrom_rejected ps order slots e :
  (∀ k e', ps !! k = Some (Rejected e') → e' = e) →
  (∃ k, k ∈ order ∧ ps !! k = Some (Rejected e)) →
  promiseAllFrom ps order slots = Rejected e.
Proof.
  intros Hsame. revert slots.
  induction order as [|k order IH]; intros slots [j [Hin Hj]].
  - by apply elem_of_nil in Hin.
  - simpl. destruct (ps !! k) as [[v|e'|]|] eqn:Ek.
    + apply IH. exists j. split; [|done].
      apply elem_of_cons in Hin as [->|?]; [congruence|done].
    + by rewrite (Hsame k e' Ek).
    + apply IH. exists j. split; [|done].
      apply elem_of_cons in Hin as [->|?]; [congruence|done].
    + apply IH. exists j. split; [|done].
      apply elem_of_cons in Hin as [->|?]; [congruence|done].
Qed.

(** A fulfilled [Promise.all] has stored, at each index, the value of
    the promise at that index. *)
Lemma promiseAllFrom_Fulfilled_inv ps order (slots : list (option A)) vs :
  promiseAllFrom ps order slots = Fulfilled vs →
  length vs = length slots ∧
  ∀ k v, vs !! k = Some v →
    slots !! k = Some (Some v) ∨ ps !! k = Some (Fulfilled v).
Proof.
  revert slots. induction order as [|j order IH]; intros slots Hrun.
  - simpl in Hrun. destruct (slotsValues slots) as [vs'|] eqn:E; [|done].
    injection Hrun as ->. unfold slotsValues in E.
    apply mapM_Some in E. split; [symmetry; by eapply Forall2_length|].
    intros k v Hk. left.
    eapply Forall2_lookup_r in E as (o & Ho & Hov); [|done].
    simpl in Hov. by rewrite Ho, Hov.
  - simpl in Hrun. destruct (ps !! j) as [[v0|e|]|] eqn:Ej; try done;
      try by apply IH.
    apply IH in Hrun as [Hlen Hval]. rewrite length_insert in Hlen.
    split; [done|]. intros k v Hk.
    destruct (Hval k v Hk) as [Hs|?]; [|by right].
    destruct (decide (j = k)) as [->|Hne].
    + rewrite list_lookup_insert_eq in Hs; [right; congruence|].
      rewrite <- Hlen. by eapply lookup_lt_Some.
    + left. by rewrite list_lookup_insert_ne in Hs.
Qed.

Lemma promiseAll_Fulfilled_inv ps order vs :
  promiseAll ps order = Fulfilled vs → ps = Fulfilled <$> vs.
Proof.
  intros Hrun. apply promiseAllFrom_Fulfilled_inv in Hrun as [Hlen Hval].
  rewrite length_replicate in Hlen.
  apply list_eq. intros k. rewrite list_lookup_fmap.
  destruct (vs !! k) as [v|] eqn:Ek; simpl.
  - destruct (Hval k v Ek) as [Hs|?]; [|done].
    apply lookup_replicate in Hs as [? _]. done.
  - apply lookup_ge_None in Ek. apply lookup_ge_None. lia.
Qed.

Lemma allSettled_Some ps :
  Forall (λ p, p ≠ Pending) ps → allSettled ps = Some ps.
Proof.
  intros H. unfold allSettled.
  replace (forallb _ ps) with true; [done|].
  symmetry. apply forallb_forall. intros p Hp.
  rewrite Forall_forall in H. apply list_elem_of_In in Hp.
  specialize (H p Hp). by destruct p.
Qed.
End PromiseFacts.

(** ** Runnable.batch *)
Section RunnableFacts.
Import Runnable.
Context {RunInput CallOptions RunOutput : Type}.
Variable emptyOptions : CallOptions.
Variable invoke : RunInput → option CallOptions → Promise RunOutput.
Implicit Types (inputs : list RunInput) (configList : list CallOptions)
  (outs : list RunOutput).

Lemma slice_take_drop {A} (l : list A) i size :
  slice i (i + size) l = take size (drop i l).
Proof. unfold slice. f_equal. lia. Qed.

Lemma batchSize_pos maxConcurrency inputs :
  inputs ≠ [] → 0 < batchSize maxConcurrency (length inputs).
Proof.
  intros Hne. assert (0 < length inputs) by (destruct inputs; [done|simpl; lia]).
  unfold batchSize. destruct maxConcurrency as [m|]; [|done].
  destruct (negb (m =? 0)%Z && (0 <? m)%Z) eqn:E; [|done].
  apply andb_prop in E as [_ E]. apply Z.ltb_lt in E. lia.
Qed.

(** The option object handed to the invocation of the input at the
    global index [w * size + k] is read at the window-local index [k]. *)
Lemma windowCalls_lookup inputs configList w size k :
  windowCalls inputs configList (w * size) size !! k =
    if decide (k < size)
    then (λ x, (x, configList !! k)) <$> inputs !! (w * size + k)
    else None.
Proof.
  unfold windowCalls. rewrite slice_take_drop, list_lookup_imap, lookup_take.
  case_decide; [by rewrite lookup_drop|done].
Qed.

(** An options array whose length differs from the number of inputs makes
    [batch] fail before any invocation. *)
Lemma batch_options_mismatch inputs (os : list CallOptions) maxConcurrency sched :
  length os ≠ length inputs →
  batch emptyOptions invoke inputs (PerInput os) maxConcurrency sched
    = ([], Rejected (OptionsLengthMismatch (length os) (length inputs))).
Proof. intros Hne. unfold batch, _getOptionsList. by rewrite decide_True. Qed.

(** In a single window that holds every input, the options are read at
    the index of the input. *)
Lemma windowCalls_single_window inputs configList size :
  length inputs ≤ size →
  windowCalls inputs configList 0 size
    = imap (λ j x, (x, configList !! j)) inputs.
Proof.
  intros Hsize. unfold windowCalls, slice.
  by rewrite drop_0, take_ge by lia.
Qed.

(** The promises of one window when every invocation fulfils. *)
Lemma window_promises inputs configList size outs w :
  0 < size →
  Forall2 (λ c v, invoke c.1 c.2 = Fulfilled v)
    (imap (λ j x, (x, configList !! (j `mod` size))) inputs) outs →
  map (λ c : Call, invoke c.1 c.2) (windowCalls inputs configList (w * size) size)
    = Fulfilled <$> take size (drop (w * size) outs).
Proof.
  intros Hsize Hall. apply list_eq. intros k.
  change (map ?f ?l) with (f <$> l).
  rewrite !list_lookup_fmap, windowCalls_lookup, lookup_take, lookup_drop.
  case_decide as Hk; [|done].
  destruct (inputs !! (w * size + k)) as [x|] eqn:Ex; simpl.
  - eapply Forall2_lookup_l in Hall as (v & Hv & Hinv);
      [|by rewrite list_lookup_imap, Ex].
    simpl in Hinv. rewrite Hv. simpl. f_equal. rewrite <- Hinv.
    do 2 f_equal. rewrite Nat.add_comm, Nat.Div0.mod_add.
    symmetry. by apply Nat.mod_small.
  - apply Forall2_length in Hall. rewrite length_imap in Hall.
    apply lookup_ge_None in Ex. rewrite lookup_ge_None_2; [done|lia].
Qed.

(** Loop invariant of [batch]: entering the loop at the start of window
    [w] with enough fuel, the remaining windows are issued one after the
    other and the outputs of the remaining inputs are appended in input
    order. *)
Lemma batchLoop_fulfilled inputs configList size sched outs :
  0 < size →
  settlesAll inputs size sched →
  Forall2 (λ c v, invoke c.1 c.2 = Fulfilled v)
    (imap (λ j x, (x, configList !! (j `mod` size))) inputs) outs →
  ∀ fuel w windows batchResults,
    0 < fuel → length inputs < fuel + w * size →
    ∃ rest,
      batchLoop invoke fuel inputs configList size sched (w * size)
          windows batchResults
        = (windows ++ rest,
           Fulfilled (concat batchResults ++ drop (w * size) outs))
      ∧ (concat rest).*1 = drop (w * size) inputs
      ∧ ∀ v c, rest !! v = Some c →
          c ≠ [] ∧ c = windowCalls inputs configList ((w + v) * size) size.
Proof.
  intros Hsize Hsched Hall.
  pose proof (Forall2_length _ _ _ Hall) as Hlen. rewrite length_imap in Hlen.
  induction fuel as [|fuel IH]; intros w windows batchResults Hfuel Henough;
    [lia|].
  simpl. case_decide as Hi.
  - rewrite (window_promises _ _ _ outs) by done.
    rewrite promiseAll_fulfilled; last first.
    { intros k Hk. apply Hsched.
      rewrite slice_take_drop, length_take, length_drop.
      rewrite length_take, length_drop in Hk. lia. }
    destruct (IH (S w) (windows ++ [windowCalls inputs configList (w * size) size])
               (batchResults ++ [take size (drop (w * size) outs)]))
      as (rest & Hrun & Hcat & Hwin); [lia|simpl; lia|].
    exists (windowCalls inputs configList (w * size) size :: rest).
    assert (∀ {X} (l : list X),
      drop (w * size) l = take size (drop (w * size) l) ++ drop (S w * size) l)
      as Hsplit.
    { intros X l. replace (S w * size) with (w * size + size) by lia.
      by rewrite <- drop_drop, take_drop. }
    replace (w * size + size) with (S w * size) by lia.
    rewrite Hrun. split; [|split].
    + f_equal; [by rewrite <- app_assoc|]. f_equal.
      rewrite concat_app. cbn [concat]. rewrite app_nil_r, <- app_assoc.
      f_equal. symmetry. apply Hsplit.
    + cbn [concat]. rewrite fmap_app, Hcat. etrans; [|symmetry; apply Hsplit].
      f_equal.
      unfold windowCalls. rewrite slice_take_drop.
      apply list_eq. intros k.
      by rewrite list_lookup_fmap, list_lookup_imap, <- option_fmap_compose,
        option_fmap_id.
    + intros [|v] c Hc.
      * simpl in Hc. injection Hc as <-. rewrite Nat.add_0_r. split; [|done].
        intros Hnil. apply (f_equal length) in Hnil. revert Hnil.
        unfold windowCalls.
        rewrite length_imap, slice_take_drop, length_take, length_drop.
        simpl. lia.
      * simpl in Hc. destruct (Hwin v c Hc) as [? ->]. split; [done|].
        f_equal. lia.
  - exists []. rewrite !app_nil_r, !drop_ge by lia. by rewrite app_nil_r.
Qed.

Lemma windowCalls_inputs inputs configList i size :
  (windowCalls inputs configList i size).*1 = slice i (i + size) inputs.
Proof.
  unfold windowCalls. apply list_eq. intros k.
  by rewrite list_lookup_fmap, list_lookup_imap, <- option_fmap_compose,
    option_fmap_id.
Qed.

(** C5. With [maxConcurrency = m] the inputs are invoked in consecutive
    windows of [m] inputs (a single window when [m] is absent), a window
    being issued only after the previous one has been awaited; when every
    invocation fulfils, [batch] returns one output per input, output [j]
    being the value of the invocation of input [j], whatever the order in
    which the invocations of a window settle. *)
Theorem batch_outputs_in_input_order inputs options maxConcurrency sched
    configList outs :
  _getOptionsList emptyOptions options (length inputs) = inr configList →
  settlesAll inputs (batchSize maxConcurrency (length inputs)) sched →
  Forall2 (λ c v, invoke c.1 c.2 = Fulfilled v)
    (imap (λ j x, (x, configList !!
                        (j `mod` batchSize maxConcurrency (length inputs))))
       inputs) outs →
  ∃ windows,
    batch emptyOptions invoke inputs options maxConcurrency sched
      = (windows, Fulfilled outs)
    ∧ length outs = length inputs
    ∧ (∀ j x, inputs !! j = Some x →
         ∃ o v, outs !! j = Some v ∧ invoke x o = Fulfilled v)
    ∧ (concat windows).*1 = inputs
    ∧ (∀ w c, windows !! w = Some c →
         c ≠ [] ∧
         c.*1 = slice (w * batchSize maxConcurrency (length inputs))
                  (w * batchSize maxConcurrency (length inputs)
                   + batchSize maxConcurrency (length inputs)) inputs)
    ∧ (maxConcurrency = None → length windows ≤ 1).
Proof.
  intros Hcfg Hsched Hall. unfold batch. rewrite Hcfg.
  pose proof (Forall2_length _ _ _ Hall) as Hlen. rewrite length_imap in Hlen.
  assert (∀ j x, inputs !! j = Some x →
            ∃ o v, outs !! j = Some v ∧ invoke x o = Fulfilled v) as Hout.
  { intros j x Hj.
    eapply Forall2_lookup_l in Hall as (v & Hv & Hinv);
      [|by rewrite list_lookup_imap, Hj].
    by eexists _, v. }
  destruct (decide (inputs = [])) as [->|Hne].
  { destruct outs; [|done]. exists []. simpl. repeat split; try done.
    lia. }
  set (size := batchSize maxConcurrency (length inputs)) in *.
  assert (0 < size) as Hsize by by apply batchSize_pos.
  destruct (batchLoop_fulfilled inputs configList size sched outs
              Hsize Hsched Hall (S (length inputs)) 0 [] [])
    as (windows & Hrun & Hcat & Hwin); [lia..|].
  change (0 * size) with 0 in Hrun, Hcat.
  rewrite drop_0 in Hrun. rewrite drop_0 in Hcat. cbn [concat app] in Hrun.
  exists windows. rewrite Hrun.
  assert (∀ w c, windows !! w = Some c →
            c ≠ [] ∧ c.*1 = slice (w * size) (w * size + size) inputs) as Hwin'.
  { intros w c Hc. destruct (Hwin w c Hc) as [? ->]. split; [done|].
    apply windowCalls_inputs. }
  repeat split; try done; try (by eapply Hwin'; eauto).
  intros ->. subst size. simpl in *.
  destruct windows as [|c [|c' rest]]; simpl; [lia..|exfalso].
  destruct (Hwin' 0 c eq_refl) as [_ Hc].
  destruct (Hwin' 1 c' eq_refl) as [Hc' _].
  simpl in Hc. unfold slice in Hc. rewrite drop_0, take_ge in Hc by lia.
  simpl in Hcat. rewrite fmap_app, Hc in Hcat.
  apply (f_equal length) in Hcat. rewrite !length_app, length_fmap in Hcat.
  destruct c'; [done|]. simpl in Hcat. lia.
Qed.
End RunnableFacts.

(** C5, on a run: three inputs, windows of two, the second invocation of
    each window settling before the first. *)
Lemma batch_outputs_in_input_order_witness :
  ∃ windows,
    Runnable.batch "" EchoRunnable.invoke [10; 20; 30] Runnable.NoOptions
        (Some 2%Z) EchoRunnable.lastFirst
      = (windows, Fulfilled [(10, Some ""); (20, Some ""); (30, Some "")])
    ∧ length [(10, Some ""); (20, Some ""); (30, Some "")] = length [10; 20; 30]
    ∧ (∀ j x, [10; 20; 30] !! j = Some x →
         ∃ o v, [(10, Some ""); (20, Some ""); (30, Some "")] !! j = Some v
                ∧ EchoRunnable.invoke x o = Fulfilled v)
    ∧ (concat windows).*1 = [10; 20; 30]
    ∧ (∀ w c, windows !! w = Some c →
         c ≠ [] ∧ c.*1 = slice (w * 2) (w * 2 + 2) [10; 20; 30])
    ∧ (Some 2%Z = None → length windows ≤ 1).
Proof.
  apply (batch_outputs_in_input_order "" EchoRunnable.invoke [10; 20; 30]
           Runnable.NoOptions (Some 2%Z) EchoRunnable.lastFirst
           [""; ""; ""]).
  - reflexivity.
  - intros i k Hk. unfold slice in Hk. rewrite length_take in Hk.
    unfold EchoRunnable.lastFirst.
    change (Runnable.batchSize (Some 2%Z) (length [10; 20; 30])) with 2 in Hk.
    destruct k as [|[|k]]; [set_solver..|lia].
  - repeat constructor.
Defined.

(** C4. Two windows of one input each, with per-input options: the second
    input (global index 1) is invoked with the options at index 0, the
    index being the position inside the window. *)
Theorem batch_options_read_at_window_index :
  Runnable.batch "" EchoRunnable.invoke [10; 20]
      (Runnable.PerInput ["first"; "second"]) (Some 1%Z) (λ _, [0])
    = ([[(10, Some "first")]; [(20, Some "first")]],
       Fulfilled [(10, Some "first"); (20, Some "first")]).
Proof. reflexivity. Qed.

Lemma bool_decide_ext_eqb (a b j i : nat) :
  (a = b ↔ j = i) → Nat.eqb a b = bool_decide (j = i).
Proof.
  intros H. destruct (Nat.eqb_spec a b) as [Hab|Hab].
  - symmetry. apply bool_decide_eq_true. by apply H.
  - symmetry. apply bool_decide_eq_false. intros Hji. by apply Hab, H.
Qed.

(** ** Counting events *)
Section FilterFacts.
Context {A B : Type}.
Implicit Types (p : B → bool) (l : list A).

Lemma filter_all p (evs : list B) :
  (∀ ev, ev ∈ evs → p ev = true) → List.filter p evs = evs.
Proof.
  induction evs as [|ev evs IH]; intros H; [done|]. simpl.
  rewrite (H ev) by set_solver. f_equal. apply IH. set_solver.
Qed.

Lemma filter_none p (evs : list B) :
  (∀ ev, ev ∈ evs → p ev = false) → List.filter p evs = [].
Proof.
  induction evs as [|ev evs IH]; intros H; [done|]. simpl.
  rewrite (H ev) by set_solver. apply IH. set_solver.
Qed.

(** Among the events produced per index by [g], those selected by a
    predicate that singles out the index [i] are the events of [i]. *)
Lemma filter_mjoin_imap_at p (g : nat → A → list B) l i x :
  (∀ j y ev, l !! j = Some y → ev ∈ g j y → p ev = bool_decide (j = i)) →
  l !! i = Some x →
  List.filter p (mjoin (imap g l)) = g i x.
Proof.
  revert g i. induction l as [|y l IH]; intros g i Hp Hi; [done|].
  rewrite imap_cons. cbn [mjoin list_join]. rewrite List.filter_app.
  destruct i as [|i].
  - injection Hi as ->.
    rewrite filter_all; last first.
    { intros ev Hev. by rewrite (Hp 0 x ev). }
    rewrite filter_none; [by rewrite app_nil_r|].
    intros ev Hev. apply list_elem_of_join in Hev as (evs & Hev & Hevs).
    apply list_elem_of_lookup in Hevs as [j Hj].
    apply list_lookup_imap_Some in Hj as (z & Hz & ->).
    by rewrite (Hp (S j) z ev).
  - rewrite filter_none; last first.
    { intros ev Hev. by rewrite (Hp 0 y ev). }
    simpl. apply (IH (g ∘ S) i); [|done].
    intros j z ev Hj Hev. rewrite (Hp (S j) z ev Hj Hev).
    apply bool_decide_ext. lia.
Qed.

Lemma filter_mjoin_imap_none p (g : nat → A → list B) l :
  (∀ j y ev, l !! j = Some y → ev ∈ g j y → p ev = false) →
  List.filter p (mjoin (imap g l)) = [].
Proof.
  intros Hp. apply filter_none. intros ev Hev.
  apply list_elem_of_join in Hev as (evs & Hev & Hevs).
  apply list_elem_of_lookup in Hevs as [j Hj].
  apply list_lookup_imap_Some in Hj as (z & Hz & ->).
  by eapply Hp.
Qed.

Lemma mjoin_imap_singleton (g : nat → A → list B) (f : nat → A → B) l :
  (∀ j y, l !! j = Some y → g j y = [f j y]) →
  mjoin (imap g l) = imap f l.
Proof.
  revert g f. induction l as [|y l IH]; intros g f H; [done|].
  rewrite !imap_cons. cbn [mjoin list_join]. rewrite (H 0 y) by done.
  simpl. f_equal. apply IH. intros j z Hj. by apply (H (S j)).
Qed.

Lemma filter_imap_at p (f : nat → A → B) l i x :
  (∀ j y, l !! j = Some y → p (f j y) = bool_decide (j = i)) →
  l !! i = Some x →
  List.filter p (imap f l) = [f i x].
Proof.
  intros Hp Hi.
  rewrite <- (mjoin_imap_singleton (λ j y, [f j y]) f) by done.
  apply (filter_mjoin_imap_at p (λ j y, [f j y])); [|done].
  intros j y ev Hj Hev. apply list_elem_of_singleton in Hev as ->.
  by apply Hp.
Qed.

Lemma filter_imap_all p (f : nat → A → B) l :
  (∀ j y, l !! j = Some y → p (f j y) = true) →
  List.filter p (imap f l) = imap f l.
Proof.
  intros Hp. apply filter_all. intros ev Hev.
  apply list_elem_of_lookup in Hev as [j Hj].
  apply list_lookup_imap_Some in Hj as (z & Hz & ->). by eapply Hp.
Qed.

Lemma filter_imap_none p (f : nat → A → B) l :
  (∀ j y, l !! j = Some y → p (f j y) = false) →
  List.filter p (imap f l) = [].
Proof.
  intros Hp. apply filter_none. intros ev Hev.
  apply list_elem_of_lookup in Hev as [j Hj].
  apply list_lookup_imap_Some in Hj as (z & Hz & ->). by eapply Hp.
Qed.
End FilterFacts.

(** ** BaseChatModel.generate *)
Section ChatModelFacts.
Import BaseChatModel.
Variable configure :
  option Callbacks → option Callbacks →
  option (list string) → option (list string) →
  option Obj → option Obj → bool → option CallbackManager.
Implicit Types (self : t) (messages : list (list BaseMessage))
  (options : GenerateOptions) (w : World).

(** The handles created by the start notifications issued from [w]. *)
Lemma generateStart_Some self messages parsedOptions callbacks_ w cm :
  configuredManager configure self parsedOptions callbacks_ = Some cm →
  generateStart configure self messages parsedOptions callbacks_ w =
    (Some (imap (λ i _, MkRunManager (nextRunId w + i)) messages),
     MkWorld (nextRunId w + length messages)
       (log w ++ imap (λ i m, EvChatModelStart (nextRunId w + i) m
                                (generateExtra self parsedOptions))
                   messages)).
Proof. intros Hcm. unfold generateStart. by rewrite Hcm. Qed.

Lemma generateStart_None self messages parsedOptions callbacks_ w :
  configuredManager configure self parsedOptions callbacks_ = None →
  generateStart configure self messages parsedOptions callbacks_ w = (None, w).
Proof. intros Hcm. unfold generateStart. by rewrite Hcm. Qed.

(** The log of [generateStart] extends the log it started from by start
    notifications only. *)
Lemma generateStart_log self messages parsedOptions callbacks_ w :
  ∃ starts,
    log (generateStart configure self messages parsedOptions callbacks_ w).2
      = log w ++ starts
    ∧ ∀ ev, ev ∈ starts → isStart ev = true.
Proof.
  destruct (configuredManager configure self parsedOptions callbacks_)
    as [cm|] eqn:Hcm.
  - erewrite generateStart_Some by done. eexists. split; [done|].
    intros ev Hev. apply list_elem_of_lookup in Hev as [j Hj].
    by apply list_lookup_imap_Some in Hj as (z & Hz & ->).
  - rewrite generateStart_None by done. exists []. split; [|set_solver].
    by rewrite app_nil_r.
Qed.

(** [generate] once every primitive has settled. *)
Lemma generate_settled self messages options callbacks_ order w :
  Forall (λ p, p ≠ Pending)
    (callGenerate self <$> issuedCalls configure self messages options callbacks_ w) →
  generate configure self messages options callbacks_ order w =
    (match promiseAll (callGenerate self <$>
                         issuedCalls configure self messages options callbacks_ w)
             order with
     | Fulfilled values =>
         Fulfilled (combinedOutput self values
                      (issuedHandles configure self messages options callbacks_ w))
     | Rejected reason => Rejected reason
     | Pending => Pending
     end,
     emit (mjoin (imap (resultNotification
                          (issuedHandles configure self messages options callbacks_ w))
                    (callGenerate self <$>
                       issuedCalls configure self messages options callbacks_ w)))
       (emit (generateEvent <$>
                issuedCalls configure self messages options callbacks_ w)
          (generateStart configure self messages (parseOptions options)
             callbacks_ w).2)).
Proof.
  unfold issuedCalls, issuedHandles, generate.
  destruct (generateStart _ _ _ _ _ _) as [runManagers w1]. simpl.
  intros Hsettled. rewrite allSettled_Some by done.
  by destruct (promiseAll _ order).
Qed.

(** A successful [generate]: every primitive fulfilled. *)
Lemma generate_Fulfilled_inv self messages options callbacks_ order w output w' :
  generate configure self messages options callbacks_ order w
    = (Fulfilled output, w') →
  ∃ values,
    callGenerate self <$> issuedCalls configure self messages options callbacks_ w
      = Fulfilled <$> values
    ∧ output = combinedOutput self values
                 (issuedHandles configure self messages options callbacks_ w)
    ∧ w' = emit (mjoin (imap (resultNotification
                          (issuedHandles configure self messages options callbacks_ w))
                          (Fulfilled <$> values)))
             (emit (generateEvent <$>
                      issuedCalls configure self messages options callbacks_ w)
                (generateStart configure self messages (parseOptions options)
                   callbacks_ w).2).
Proof.
  unfold issuedCalls, issuedHandles, generate.
  destruct (generateStart _ _ _ _ _ _) as [runManagers w1]. simpl.
  intros Hrun.
  destruct (allSettled _) as [results|] eqn:Ea; [|done].
  unfold allSettled in Ea.
  destruct (forallb _ _); [|done]. injection Ea as <-.
  destruct (promiseAll _ order) as [values| |] eqn:Ep; try done.
  injection Hrun as <- <-. exists values.
  apply promiseAll_Fulfilled_inv in Ep. by rewrite Ep.
Qed.

Lemma newEvents_emit w w1 evs0 evs1 evs2 :
  log w1 = log w ++ evs0 →
  newEvents w (emit evs2 (emit evs1 w1)) = evs0 ++ evs1 ++ evs2.
Proof.
  intros Hlog. unfold newEvents, emit. simpl. rewrite Hlog, <- !app_assoc.
  by rewrite drop_app_length.
Qed.

Lemma generateStart_handles self messages parsedOptions callbacks_ w runManagers :
  (generateStart configure self messages parsedOptions callbacks_ w).1
    = Some runManagers →
  runManagers = imap (λ i _, MkRunManager (nextRunId w + i)) messages.
Proof.
  destruct (configuredManager configure self parsedOptions callbacks_)
    as [cm|] eqn:Hcm.
  - erewrite generateStart_Some by done. simpl. congruence.
  - by rewrite generateStart_None.
Qed.

(** The handle of the message-list at index [j]. *)
Lemma runManagerAt_handles messages n j :
  runManagerAt (Some (imap (λ i _, MkRunManager (n + i)) messages)) j
    = if decide (j < length messages) then Some (MkRunManager (n + j)) else None.
Proof.
  unfold runManagerAt. simpl. rewrite list_lookup_imap.
  case_decide as Hj.
  - by apply lookup_lt_is_Some_2 in Hj as [m ->].
  - rewrite lookup_ge_None_2; [done|lia].
Qed.

(** A result notification is an end or an error notification, delivered
    to the handle at the index of the result. *)
Lemma resultNotification_elem runManagers j pResult ev :
  ev ∈ resultNotification runManagers j pResult →
  isStart ev = false ∧ isGenerate ev = false ∧
  ∃ rm, runManagerAt runManagers j = Some rm ∧
        ∀ run, closesRun run ev = Nat.eqb (runId rm) run.
Proof.
  unfold resultNotification.
  destruct pResult as [r|e|], (runManagerAt runManagers j) as [rm|];
    intros Hev; try by apply elem_of_nil in Hev.
  - apply list_elem_of_singleton in Hev as ->. repeat split. by exists rm.
  - apply list_elem_of_singleton in Hev as ->. repeat split. by exists rm.
Qed.

Lemma start_event_kind ev :
  isStart ev = true →
  isEnd ev = false ∧ isError ev = false ∧ isGenerate ev = false
  ∧ ∀ run, closesRun run ev = false.
Proof. by destruct ev. Qed.

Lemma generateEvent_kind (c : GenerateCall) :
  isStart (generateEvent c) = false ∧ isEnd (generateEvent c) = false
  ∧ isError (generateEvent c) = false ∧ isGenerate (generateEvent c) = true
  ∧ ∀ run, closesRun run (generateEvent c) = false.
Proof. done. Qed.


(** The three segments of the events of a call to [generate], filtered. *)
Lemma filter_segments (p : Event → bool) w w1 evs0 evs1 evs2 :
  log w1 = log w ++ evs0 →
  List.filter p (newEvents w (emit evs2 (emit evs1 w1)))
    = List.filter p evs0 ++ List.filter p evs1 ++ List.filter p evs2.
Proof.
  intros Hlog. rewrite (newEvents_emit _ _ evs0) by done.
  by rewrite !List.filter_app.
Qed.

(** C1, as the code has it.  When [CallbackManager.configure] yields a
    callback manager, a successful call to [generate] over N
    message-lists issues exactly N start notifications, one per
    message-list and each creating the handle of that list, exactly N
    end notifications and no error notification; the handle at index
    [i] receives exactly one closing notification, the end notification
    carrying the result of the primitive on message-list [i]. *)
Theorem generate_success_notifications self messages options callbacks_
    order w cm output w' :
  configuredManager configure self (parseOptions options) callbacks_ = Some cm →
  generate configure self messages options callbacks_ order w
    = (Fulfilled output, w') →
  List.filter isStart (newEvents w w')
    = imap (λ i m, EvChatModelStart (nextRunId w + i) m
                     (generateExtra self (parseOptions options))) messages
  ∧ issuedHandles configure self messages options callbacks_ w
    = Some (imap (λ i _, MkRunManager (nextRunId w + i)) messages)
  ∧ count isStart (newEvents w w') = length messages
  ∧ count isEnd (newEvents w w') = length messages
  ∧ count isError (newEvents w w') = 0
  ∧ ∀ i messageList, messages !! i = Some messageList →
      ∃ result,
        _generate self messageList (withPromptIndex (parseOptions options) i)
          (Some (MkRunManager (nextRunId w + i))) = Fulfilled result
        ∧ lr_generations output !! i = Some (cr_generations result)
        ∧ List.filter (closesRun (nextRunId w + i)) (newEvents w w')
          = [EvLLMEnd (nextRunId w + i) [Some <$> cr_generations result]
               (cr_llmOutput result)].
Proof.
  intros Hcm Hrun.
  apply generate_Fulfilled_inv in Hrun as (values & Hvalues & -> & ->).
  unfold issuedCalls, issuedHandles in *.
  rewrite (generateStart_Some _ _ _ _ _ cm Hcm) in *. simpl in *.
  set (n0 := nextRunId w) in *.
  set (handles := imap (λ i _, MkRunManager (n0 + i)) messages) in *.
  set (calls := generateCalls messages (parseOptions options) (Some handles)) in *.
  assert (length values = length messages) as Hlen.
  { apply (f_equal length) in Hvalues. rewrite !length_fmap in Hvalues.
    unfold calls, generateCalls in Hvalues. by rewrite length_imap in Hvalues. }
  (* the end notifications, one per result and in index order *)
  assert (mjoin (imap (resultNotification (Some handles)) (Fulfilled <$> values))
          = imap (λ j r, EvLLMEnd (n0 + j) [Some <$> cr_generations r]
                           (cr_llmOutput r)) values) as Hends.
  { rewrite imap_fmap. apply mjoin_imap_singleton. intros j r Hj.
    unfold resultNotification, handles, compose. cbn beta iota.
    rewrite runManagerAt_handles.
    apply lookup_lt_Some in Hj. case_decide; [done|lia]. }
  rewrite Hends.
  assert (∀ p : Event → bool,
    List.filter p (newEvents w
      (emit (imap (λ j r, EvLLMEnd (n0 + j) [Some <$> cr_generations r]
                            (cr_llmOutput r)) values)
         (emit (generateEvent <$> calls)
            (MkWorld (n0 + length messages)
               (log w ++ imap (λ i m, EvChatModelStart (n0 + i) m
                   (generateExtra self (parseOptions options))) messages)))))
    = List.filter p (imap (λ i m, EvChatModelStart (n0 + i) m
                   (generateExtra self (parseOptions options))) messages)
      ++ List.filter p (generateEvent <$> calls)
      ++ List.filter p (imap (λ j r, EvLLMEnd (n0 + j)
                   [Some <$> cr_generations r] (cr_llmOutput r)) values))
    as Hseg.
  { intros p. by apply filter_segments. }
  assert (∀ p : Event → bool, (∀ c, p (generateEvent c) = false) →
            List.filter p (generateEvent <$> calls) = []) as Hcalls.
  { intros p Hp. apply filter_none. intros ev Hev.
    apply list_elem_of_fmap in Hev as (c & -> & _). apply Hp. }
  unfold count. rewrite !Hseg.
  rewrite !Hcalls by done.
  rewrite (filter_imap_all isStart), (filter_imap_none isStart) by done.
  rewrite (filter_imap_none isEnd), (filter_imap_all isEnd) by done.
  rewrite !(filter_imap_none isError) by done.
  rewrite !app_nil_r. simpl. rewrite !length_imap.
  repeat split; try done.
  intros i messageList Hi.
  destruct (lookup_lt_is_Some_2 values i) as [result Hresult];
    [rewrite Hlen; by eapply lookup_lt_Some|].
  exists result. split; [|split].
  - apply (f_equal (λ l, l !! i)) in Hvalues.
    rewrite !list_lookup_fmap, Hresult in Hvalues.
    unfold calls, generateCalls in Hvalues.
    rewrite list_lookup_imap, Hi in Hvalues.
    unfold callGenerate, handles in Hvalues. cbn [fmap option_fmap option_map fst snd] in Hvalues.
    rewrite runManagerAt_handles in Hvalues.
    apply lookup_lt_Some in Hi. case_decide; [|lia]. congruence.
  - by rewrite list_lookup_fmap, Hresult.
  - rewrite Hseg, Hcalls by done.
    rewrite (filter_imap_none (closesRun (n0 + i))) by done. simpl.
    apply (filter_imap_at (closesRun (n0 + i))
             (λ j r, EvLLMEnd (n0 + j) [Some <$> cr_generations r]
                       (cr_llmOutput r))); [|done].
    intros j r _. simpl. apply bool_decide_ext_eqb. lia.
Qed.

(** Without a callback manager [generate] issues no notification. *)
Lemma generate_without_manager_silent self messages options callbacks_ order w :
  configuredManager configure self (parseOptions options) callbacks_ = None →
  newEvents w (generate configure self messages options callbacks_ order w).2
    = generateEvent <$> generateCalls messages (parseOptions options) None.
Proof.
  intros Hcm. unfold generate. rewrite generateStart_None by done.
  assert (∀ ps : list (Promise ChatResult),
            mjoin (imap (resultNotification None) ps) = []) as Hnone.
  { intros ps. rewrite <- (filter_all (λ _, true) (mjoin _)) by done.
    apply filter_mjoin_imap_none. intros j y ev _ Hev.
    unfold resultNotification in Hev. simpl in Hev.
    destruct y; by apply elem_of_nil in Hev. }
  assert (∀ evs, newEvents w (emit evs w) = evs) as Hnew.
  { intros evs. unfold newEvents, emit. simpl. by rewrite drop_app_length. }
  cbn beta iota zeta.
  destruct (allSettled _) as [results|]; [|simpl; by rewrite Hnew].
  assert (∀ evs, newEvents w (emit (mjoin (imap (resultNotification None) results))
                                (emit evs w)) = evs) as Hnew'.
  { intros evs. rewrite Hnone. unfold newEvents, emit. simpl.
    by rewrite app_nil_r, drop_app_length. }
  by destruct (promiseAll results order); simpl; rewrite Hnew'.
Qed.

(** [generate] returns a result when every primitive fulfils and every
    visit of the results settles. *)
Lemma generate_succeeds self messages options callbacks_ order w :
  (∀ c, c ∈ issuedCalls configure self messages options callbacks_ w →
        isFulfilled (callGenerate self c) = true) →
  (∀ k, k < length messages → k ∈ order) →
  ∃ output w',
    generate configure self messages options callbacks_ order w
      = (Fulfilled output, w').
Proof.
  intros Hall Hcov. unfold issuedCalls, issuedHandles in Hall.
  set (calls := generateCalls _ _ _) in Hall.
  assert (∃ values, callGenerate self <$> calls = Fulfilled <$> values)
    as [values Hvalues].
  { clearbody calls. induction calls as [|c calls IH]; [by exists []|].
    destruct IH as [values Hvalues]; [intros c' Hc'; apply Hall; set_solver|].
    specialize (Hall c ltac:(set_solver)).
    destruct (callGenerate self c) as [v| |] eqn:Ec; try done.
    exists (v :: values). by rewrite !fmap_cons, Ec, Hvalues. }
  rewrite generate_settled; unfold issuedCalls, issuedHandles; fold calls.
  - rewrite Hvalues, promiseAll_fulfilled; [by eexists _, _|].
    intros k Hk. apply Hcov.
    apply (f_equal length) in Hvalues. rewrite !length_fmap in Hvalues.
    unfold calls, generateCalls in Hvalues. rewrite length_imap in Hvalues.
    lia.
  - rewrite Hvalues. apply Forall_fmap, Forall_forall. done.
Qed.

(** C2. When the primitive fails on message-list [i] and fulfils on the
    others, every primitive has been called and awaited, the call to
    [generate] fails with the reason of that failure, the handle of
    list [i] receives exactly one closing notification, the error
    notification carrying that reason, and the handle of every other
    list receives exactly one, the end notification carrying the
    result of its primitive. *)
Theorem generate_one_failure_settles_all self messages options callbacks_
    order w i reason :
  (∃ c, issuedCalls configure self messages options callbacks_ w !! i = Some c
        ∧ callGenerate self c = Rejected reason) →
  (∀ j c, j ≠ i →
     issuedCalls configure self messages options callbacks_ w !! j = Some c →
     isFulfilled (callGenerate self c) = true) →
  (∀ k, k < length messages → k ∈ order) →
  ∃ w',
    generate configure self messages options callbacks_ order w
      = (Rejected reason, w')
    ∧ List.filter isGenerate (newEvents w w')
      = generateEvent <$> issuedCalls configure self messages options callbacks_ w
    ∧ length (issuedCalls configure self messages options callbacks_ w)
      = length messages
    ∧ ∀ runManagers j rm,
        issuedHandles configure self messages options callbacks_ w
          = Some runManagers →
        runManagers !! j = Some rm →
        if decide (j = i)
        then List.filter (closesRun (runId rm)) (newEvents w w')
             = [EvLLMError (runId rm) reason]
        else ∃ c result,
             issuedCalls configure self messages options callbacks_ w !! j
               = Some c
             ∧ callGenerate self c = Fulfilled result
             ∧ List.filter (closesRun (runId rm)) (newEvents w w')
               = [EvLLMEnd (runId rm) [Some <$> cr_generations result]
                    (cr_llmOutput result)].
Proof.
  intros (ci & Hci & Hfail) Hothers Hcov.
  unfold issuedCalls, issuedHandles in *.
  set (started := generateStart configure self messages
                    (parseOptions options) callbacks_ w) in *.
  set (calls := generateCalls messages (parseOptions options) started.1) in *.
  assert (length calls = length messages) as Hlen
    by (unfold calls, generateCalls; by rewrite length_imap).
  assert (Forall (λ p, p ≠ Pending) (callGenerate self <$> calls)) as Hsettled.
  { apply Forall_fmap, Forall_lookup. intros j c Hj. simpl.
    destruct (decide (j = i)) as [->|Hne]; [congruence|].
    specialize (Hothers j c Hne Hj). by destruct (callGenerate self c). }
  rewrite generate_settled by done.
  unfold issuedCalls, issuedHandles. fold started calls.
  unfold promiseAll.
  rewrite (promiseAllFrom_rejected _ _ _ reason); last first.
  { exists i. split; [apply Hcov; rewrite <- Hlen; by eapply lookup_lt_Some|].
    by rewrite list_lookup_fmap, Hci, <- Hfail. }
  { intros k e' Hk. rewrite list_lookup_fmap in Hk.
    destruct (calls !! k) as [c|] eqn:Ek; [|done]. simpl in Hk.
    destruct (decide (k = i)) as [->|Hne]; [congruence|].
    specialize (Hothers k c Hne Ek). injection Hk as Hk.
    by rewrite Hk in Hothers. }
  eexists. split; [done|].
  destruct (generateStart_log self messages (parseOptions options)
              callbacks_ w) as (starts & Hlog & Hstarts).
  fold started in Hlog.
  split; [|split; [done|]].
  - rewrite (filter_segments _ _ _ starts) by done.
    rewrite filter_none, filter_all, filter_mjoin_imap_none; first by rewrite app_nil_r.
    + intros j y ev _ Hev. by apply resultNotification_elem in Hev as (_ & ? & _).
    + intros ev Hev. by apply list_elem_of_fmap in Hev as (c & -> & _).
    + intros ev Hev. by apply start_event_kind, Hstarts.
  - intros runManagers j rm Hrms Hj.
    pose proof (generateStart_handles _ _ _ _ _ _ Hrms) as ->.
    rewrite list_lookup_imap in Hj.
    destruct (messages !! j) as [messageList|] eqn:Ej; [|done].
    injection Hj as <-. simpl.
    assert (j < length messages) as Hjlt by by eapply lookup_lt_Some.
    destruct (lookup_lt_is_Some_2 calls j) as [c Hc]; [lia|].
    assert (List.filter (closesRun (nextRunId w + j)) (newEvents w
              (emit (mjoin (imap (resultNotification started.1)
                              (callGenerate self <$> calls)))
                 (emit (generateEvent <$> calls) started.2)))
            = resultNotification started.1 j (callGenerate self c)) as Hclose.
    { rewrite (filter_segments _ _ _ starts) by done.
      rewrite (filter_none _ starts), (filter_none _ (generateEvent <$> calls)).
      - simpl. apply filter_mjoin_imap_at; [|by rewrite list_lookup_fmap, Hc].
        intros k y ev Hk Hev.
        apply resultNotification_elem in Hev as (_ & _ & rm & Hrm & Hrun).
        rewrite Hrun. rewrite Hrms, runManagerAt_handles in Hrm.
        case_decide; [|done]. injection Hrm as <-. simpl.
        apply bool_decide_ext_eqb. lia.
      - intros ev Hev. by apply list_elem_of_fmap in Hev as (c' & -> & _).
      - intros ev Hev. by apply start_event_kind, Hstarts. }
    rewrite Hclose. unfold resultNotification.
    rewrite Hrms, runManagerAt_handles.
    destruct (decide (j < length messages)) as [_|?]; [|lia].
    case_decide as Hji.
    + subst j. assert (c = ci) as -> by congruence. by rewrite Hfail.
    + specialize (Hothers j c Hji Hc).
      destruct (callGenerate self c) as [result| |] eqn:Ec; try done.
      by exists c, result.
Qed.
End ChatModelFacts.

(** C1, on a run: two message-lists, a handler registered on the model,
    the visit of the second result settling first. *)
Lemma generate_success_notifications_witness :
  ∃ output w',
    BaseChatModel.generate HelloChat.configure
        (HelloChat.model (Some ["tracer"]))
        [[HelloChat.human "hi"]; [HelloChat.human "yo"]]
        BaseChatModel.NoOptions None [1; 0] HelloChat.initial
      = (Fulfilled output, w')
    ∧ count isStart (newEvents HelloChat.initial w') = 2
    ∧ count isEnd (newEvents HelloChat.initial w') = 2
    ∧ count isError (newEvents HelloChat.initial w') = 0
    ∧ List.filter (closesRun 1) (newEvents HelloChat.initial w')
      = [EvLLMEnd 1 [Some <$> cr_generations HelloChat.hello] None].
Proof.
  eexists _, _. split; [reflexivity|].
  destruct (generate_success_notifications HelloChat.configure
              (HelloChat.model (Some ["tracer"]))
              [[HelloChat.human "hi"]; [HelloChat.human "yo"]]
              BaseChatModel.NoOptions None [1; 0] HelloChat.initial
              (MkCallbackManager ["tracer"] [] ∅) _ _ eq_refl eq_refl)
    as (_ & _ & Hstart & Hend & Herr & Hpair).
  split; [exact Hstart|]. split; [exact Hend|]. split; [exact Herr|].
  destruct (Hpair 1 [HelloChat.human "yo"] eq_refl) as (result & Hr & _ & Hclose).
  injection Hr as <-. exact Hclose.
Defined.

(** C1 as stated fails when [CallbackManager.configure] yields no manager:
    a successful call over one message-list issues no start and no end
    notification. *)
Lemma generate_without_manager_counterexample :
  ∃ output w',
    BaseChatModel.generate HelloChat.configure (HelloChat.model None)
        [[HelloChat.human "hi"]] BaseChatModel.NoOptions None [0]
        HelloChat.initial
      = (Fulfilled output, w')
    ∧ length [[HelloChat.human "hi"]] = 1
    ∧ count isStart (newEvents HelloChat.initial w') = 0
    ∧ count isEnd (newEvents HelloChat.initial w') = 0.
Proof. eexists _, _. split; [reflexivity|]. done. Qed.

(** C2, on a run: three message-lists, the primitive failing on the
    second, the visits of the results settling last to first. *)
Lemma generate_one_failure_settles_all_witness :
  ∃ w',
    BaseChatModel.generate HelloChat.configure
        (HelloChat.model (Some ["tracer"]))
        [[HelloChat.human "hi"]; [HelloChat.human "fail"]; [HelloChat.human "yo"]]
        BaseChatModel.NoOptions None [2; 1; 0] HelloChat.initial
      = (Rejected (Thrown "model failure"), w')
    ∧ List.filter (closesRun 0) (newEvents HelloChat.initial w')
      = [EvLLMEnd 0 [Some <$> cr_generations HelloChat.hello] None]
    ∧ List.filter (closesRun 1) (newEvents HelloChat.initial w')
      = [EvLLMError 1 (Thrown "model failure")]
    ∧ List.filter (closesRun 2) (newEvents HelloChat.initial w')
      = [EvLLMEnd 2 [Some <$> cr_generations HelloChat.hello] None]
    ∧ count isGenerate (newEvents HelloChat.initial w') = 3.
Proof.
  destruct (generate_one_failure_settles_all HelloChat.configure
              (HelloChat.model (Some ["tracer"]))
              [[HelloChat.human "hi"]; [HelloChat.human "fail"];
               [HelloChat.human "yo"]]
              BaseChatModel.NoOptions None [2; 1; 0] HelloChat.initial
              1 (Thrown "model failure"))
    as (w' & Hrun & Hcalls & _ & Hclose).
  - eexists. split; reflexivity.
  - intros [|[|[|j]]] c Hne Hc; try done; by injection Hc as <-.
  - intros [|[|[|k]]] Hk; [set_solver..|simpl in Hk; lia].
  - exists w'. split; [exact Hrun|].
    pose proof (Hclose _ 0 (MkRunManager 0) eq_refl eq_refl) as H0.
    pose proof (Hclose _ 1 (MkRunManager 1) eq_refl eq_refl) as H1.
    pose proof (Hclose _ 2 (MkRunManager 2) eq_refl eq_refl) as H2.
    simpl in H0, H1, H2.
    destruct H0 as (c0 & r0 & Hc0 & Hr0 & H0).
    destruct H2 as (c2 & r2 & Hc2 & Hr2 & H2).
    injection Hc0 as <-. injection Hc2 as <-.
    injection Hr0 as <-. injection Hr2 as <-.
    split; [exact H0|]. split; [exact H1|]. split; [exact H2|].
    unfold count. by rewrite Hcalls.
Defined.

(** ** Call options, streaming *)
Section ChatModelStreamFacts.
Import BaseChatModel.
Variable configure :
  option Callbacks → option Callbacks →
  option (list string) → option (list string) →
  option Obj → option Obj → bool → option CallbackManager.
Context {BaseLanguageModelInput BasePromptValue : Type}.
Variable _convertInputToPromptValue : BaseLanguageModelInput → BasePromptValue.
Variable toChatMessages : BasePromptValue → list BaseMessage.

(** The split of the options derives an abort signal from a timeout when
    no signal was given. *)
Lemma separate_derives_signal (options : CallOptions) ms :
  timeout options = Some ms → ms ≠ 0%Z → signal options = None →
  signal (_separateRunnableConfigFromCallOptions options).2
    = Some (SignalTimeout ms).
Proof.
  intros Ht Hms Hs.
  unfold _separateRunnableConfigFromCallOptions,
    super_separateRunnableConfigFromCallOptions, needsTimeoutSignal.
  simpl. rewrite Ht, Hs.
  destruct (Z.eqb_spec ms 0); [done|]. done.
Qed.

(** [generate] hands [parsedOptions] to the primitive, not the
    [callOptions] returned by the split: the signal the primitive sees is
    the one of the caller. *)
Lemma generate_forwards_parsed_options self messages options callbacks_ w i c :
  issuedCalls configure self messages options callbacks_ w !! i = Some c →
  c.1.2 = withPromptIndex (parseOptions options) i
  ∧ signal c.1.2 = signal (parseOptions options).
Proof.
  unfold issuedCalls, generateCalls. rewrite list_lookup_imap.
  destruct (messages !! i); [|done]. simpl. by intros [= <-].
Qed.

(** The streaming variant hands the [callOptions] of the split, hence the
    derived signal, to the chunk producer. *)
Lemma streamIterator_forwards_callOptions self input options order w produce :
  _streamResponseChunks self = Some produce →
  ∃ runManager,
    EvStreamResponseChunks (toChatMessages (_convertInputToPromptValue input))
      (_separateRunnableConfigFromCallOptions
         (default emptyCallOptions options)).2 runManager
    ∈ log (_streamIterator configure _convertInputToPromptValue toChatMessages
             self input options order w).2.
Proof.
  intros Hp. unfold _streamIterator. rewrite Hp.
  destruct (_separateRunnableConfigFromCallOptions _) as [runnableConfig callOptions].
  destruct (startRuns _ _ _ _) as [runManagers w1]. simpl.
  exists (runManagerAt runManagers 0).
  destruct (finish _); simpl; set_solver.
Qed.

Lemma string_app_assoc (s1 s2 s3 : string) :
  (s1 +:+ s2) +:+ s3 = s1 +:+ (s2 +:+ s3).
Proof.
  induction s1 as [|a s1 IH]; [done|].
  change (String a ((s1 +:+ s2) +:+ s3) = String a (s1 +:+ (s2 +:+ s3))).
  by rewrite IH.
Qed.

(** Combining chunks is associative. *)
Lemma concat_assoc (c1 c2 c3 : ChatGeneration) :
  ChatGenerationChunk.concat (ChatGenerationChunk.concat c1 c2) c3
    = ChatGenerationChunk.concat c1 (ChatGenerationChunk.concat c2 c3).
Proof.
  unfold ChatGenerationChunk.concat, ChatGenerationChunk.concatMessage,
    ChatGenerationChunk.mergeInfo.
  simpl. rewrite !string_app_assoc. do 2 f_equal.
  by rewrite (assoc_L (∪)).
Qed.

(** Accumulating from a non-empty state. *)
Lemma foldl_accumulate_Some g (chunks : list ChatGeneration) :
  foldl accumulate (Some g) chunks
    = Some (match foldChunks chunks with
            | Some rest => ChatGenerationChunk.concat g rest
            | None => g
            end).
Proof.
  unfold foldChunks. revert g.
  induction chunks as [|c chunks IH] using rev_ind; intros g; [done|].
  rewrite !foldl_app. simpl. rewrite IH.
  destruct (foldl accumulate None chunks) as [rest|]; simpl; [|done].
  by rewrite concat_assoc.
Qed.

(** Folding a sequence of chunks cut in two: fold each part, then combine
    the two results. *)
Lemma foldChunks_app (l1 l2 : list ChatGeneration) :
  foldChunks (l1 ++ l2)
    = match foldChunks l1, foldChunks l2 with
      | Some g1, Some g2 => Some (ChatGenerationChunk.concat g1 g2)
      | Some g1, None => Some g1
      | None, g2 => g2
      end.
Proof.
  unfold foldChunks at 1. rewrite foldl_app. fold (foldChunks l1).
  destruct (foldChunks l1) as [g1|]; [|done].
  rewrite foldl_accumulate_Some. by destruct (foldChunks l2).
Qed.

(** C6. Folding three chunks one at a time gives the same combined
    generation as combining the first two and then folding in the third,
    and the same as combining the first with the combination of the last
    two; its message content is the three contents in order. *)
Theorem foldChunks_associative (c1 c2 c3 : ChatGeneration) :
  foldChunks [c1; c2; c3] = foldChunks [ChatGenerationChunk.concat c1 c2; c3]
  ∧ foldChunks [c1; c2; c3]
    = Some (ChatGenerationChunk.concat c1 (ChatGenerationChunk.concat c2 c3))
  ∧ (content ∘ message) <$> foldChunks [c1; c2; c3]
    = Some (content (message c1) +:+ content (message c2)
            +:+ content (message c3)).
Proof.
  assert (foldChunks [c1; c2; c3]
          = Some (ChatGenerationChunk.concat c1 (ChatGenerationChunk.concat c2 c3)))
    as Hright.
  { unfold foldChunks. cbn [foldl accumulate]. by rewrite concat_assoc. }
  split; [done|]. split; [done|]. by rewrite Hright.
Qed.

(** C7. On a model that inherits the base chunk producer, draining the
    stream is running [invoke] once: the events are those of [invoke], a
    fulfilled [invoke] gives exactly one element, its value, and a rejected
    one ends the stream with the same error before any element. *)
Theorem stream_default_is_invoke self input options order w :
  _streamResponseChunks self = None →
  _streamIterator configure _convertInputToPromptValue toChatMessages
      self input options order w
    = (Runnable._streamIterator
         (λ input_ options_,
            (invoke configure _convertInputToPromptValue toChatMessages
               self input_ options_ order w).1) input options,
       (invoke configure _convertInputToPromptValue toChatMessages
          self input options order w).2)
  ∧ ∀ v,
      (invoke configure _convertInputToPromptValue toChatMessages
         self input options order w).1 = Fulfilled v →
      (_streamIterator configure _convertInputToPromptValue toChatMessages
         self input options order w).1 = MkStream [v] (Fulfilled tt).
Proof.
  intros Hdefault. unfold _streamIterator, Runnable._streamIterator.
  rewrite Hdefault.
  destruct (invoke _ _ _ _ _ _ _ _) as [result w'].
  split; [by destruct result|]. simpl. by intros v ->.
Qed.
End ChatModelStreamFacts.

(** C7, on a run: the stream of the model without chunk producer. *)
Lemma stream_default_is_invoke_witness :
  BaseChatModel._streamIterator HelloChat.configure id id
      (HelloChat.model (Some ["tracer"])) [HelloChat.human "hi"] None [0]
      HelloChat.initial
    = (Runnable._streamIterator
         (λ input_ options_,
            (BaseChatModel.invoke HelloChat.configure id id
               (HelloChat.model (Some ["tracer"])) input_ options_ [0]
               HelloChat.initial).1) [HelloChat.human "hi"] None,
       (BaseChatModel.invoke HelloChat.configure id id
          (HelloChat.model (Some ["tracer"])) [HelloChat.human "hi"] None [0]
          HelloChat.initial).2)
  ∧ ∀ v,
      (BaseChatModel.invoke HelloChat.configure id id
         (HelloChat.model (Some ["tracer"])) [HelloChat.human "hi"] None [0]
         HelloChat.initial).1 = Fulfilled v →
      (BaseChatModel._streamIterator HelloChat.configure id id
         (HelloChat.model (Some ["tracer"])) [HelloChat.human "hi"] None [0]
         HelloChat.initial).1 = MkStream [v] (Fulfilled tt).
Proof.
  apply (stream_default_is_invoke HelloChat.configure id id
           (HelloChat.model (Some ["tracer"])) [HelloChat.human "hi"] None [0]
           HelloChat.initial).
  reflexivity.
Defined.

(** The stream of the run above has one element, the message "hello",
    and its events hold one start and one end notification. *)
Example stream_default_run :
  BaseChatModel._streamIterator HelloChat.configure id id
      (HelloChat.model (Some ["tracer"])) [HelloChat.human "hi"] None [0]
      HelloChat.initial
    = (MkStream [MkMessage "ai" "hello"] (Fulfilled tt),
       MkWorld 1
         [EvChatModelStart 0 [HelloChat.human "hi"]
            (MkExtra emptyCallOptions ∅);
          EvGenerate [HelloChat.human "hi"]
            (BaseChatModel.withPromptIndex emptyCallOptions 0)
            (Some (MkRunManager 0));
          EvLLMEnd 0 [Some <$> cr_generations HelloChat.hello] None]).
Proof. reflexivity. Qed.

(** C3. With call options carrying a timeout and no signal, the split
    derives the signal, but the options [generate] passes to [_generate]
    hold the timeout and no signal. *)
Theorem generate_timeout_signal_not_forwarded :
  signal (BaseChatModel._separateRunnableConfigFromCallOptions
            HelloChat.timeoutOnly).2 = Some (SignalTimeout 1000)
  ∧ List.filter isGenerate
      (newEvents HelloChat.initial
         (BaseChatModel.generate HelloChat.configure
            (HelloChat.model (Some ["tracer"])) [[HelloChat.human "hi"]]
            (BaseChatModel.Options HelloChat.timeoutOnly) None [0]
            HelloChat.initial).2)
    = [EvGenerate [HelloChat.human "hi"]
         (MkCallOptions None None None None (Some 1000%Z) None (Some 0))
         (Some (MkRunManager 0))].
Proof. split; reflexivity. Qed.

(** The streaming variant of the same model, same options: the chunk
    producer receives the derived signal. *)
Example stream_timeout_signal_forwarded :
  List.filter
    (λ ev, match ev with EvStreamResponseChunks _ _ _ => true | _ => false end)
    (BaseChatModel._streamIterator HelloChat.configure id id
       (HelloChat.streamingModel (Some ["tracer"])) [HelloChat.human "hi"]
       (Some HelloChat.timeoutOnly) [0] HelloChat.initial).2.(log)
    = [EvStreamResponseChunks [HelloChat.human "hi"]
         (MkCallOptions None None None None (Some 1000%Z)
            (Some (SignalTimeout 1000)) None)
         (Some (MkRunManager 0))].
Proof. reflexivity. Qed.

(** ** MongoDBAtlasVectorSearch *)
Section VectorStoreFacts.
Import MongoDBAtlasVectorSearch.
Implicit Types (self : t) (vectors : list (list Z)) (documents : list Document)
  (collection : Collection).

(** The [map] of [addVectors] completes exactly when every vector has a
    document at its index, and then pairs them index by index. *)
Lemma addVectors_records self vectors documents :
  mapM id (imap (vectorRecordAt self documents) vectors)
    = if decide (length vectors ≤ length documents)
      then Some (zip_with (vectorRecord self) vectors documents)
      else None.
Proof.
  case_decide as Hlen.
  - apply mapM_Some_2, Forall2_same_length_lookup_2.
    { rewrite length_imap, length_zip_with. lia. }
    intros i o r Ho Hr. simpl.
    rewrite list_lookup_imap in Ho. rewrite lookup_zip_with in Hr.
    destruct (vectors !! i) as [embedding|]; [|done]. simpl in *.
    unfold vectorRecordAt in Ho.
    destruct (documents !! i) as [document|]; [|done]. simpl in *. congruence.
  - apply mapM_None_2, Exists_exists.
    destruct (lookup_lt_is_Some_2 vectors (length documents)) as [e He]; [lia|].
    exists None. split; [|done].
    apply list_elem_of_lookup. exists (length documents).
    rewrite list_lookup_imap, He. simpl. unfold vectorRecordAt.
    by rewrite lookup_ge_None_2.
Qed.

(** C8, as the code has it.  [addVectors] fails, storing nothing, exactly
    when there are more vectors than documents; otherwise it succeeds
    and adds one record per vector, the record at index [idx] pairing
    vector [idx] with document [idx].  With as many vectors as documents
    that is one record per pair; documents beyond the last vector are
    left out. *)
Theorem addVectors_stores_one_record_per_vector self vectors documents collection :
  addVectors self vectors documents collection
    = (if decide (length vectors ≤ length documents)
       then (Fulfilled tt,
             collection ++ zip_with (vectorRecord self) vectors documents)
       else (Rejected (TypeError "Cannot read properties of undefined"),
             collection))
  ∧ length (zip_with (vectorRecord self) vectors documents)
    = length vectors `min` length documents.
Proof.
  split; [|apply length_zip_with].
  unfold addVectors. rewrite addVectors_records. by case_decide.
Qed.

(** C8 as stated fails with fewer vectors than documents: one vector and
    two documents give a successful call that stores one record. *)
Lemma addVectors_fewer_vectors_counterexample :
  length [[1%Z; 2%Z]] ≠ length [AtlasExample.plain; AtlasExample.shadowing]
  ∧ addVectors AtlasExample.store [[1%Z; 2%Z]]
      [AtlasExample.plain; AtlasExample.shadowing] []
    = (Fulfilled tt,
       [vectorRecord AtlasExample.store [1%Z; 2%Z] AtlasExample.plain]).
Proof. split; [done|]. reflexivity. Qed.

(** A property of the metadata wins over the text and embedding
    properties of the same name. *)
Lemma vectorRecord_metadata self embedding document key v :
  metadata document !! key = Some v →
  vectorRecord self embedding document !! key = Some v.
Proof. intros Hv. unfold vectorRecord. by apply lookup_union_Some_l. Qed.

(** Without such a property the record holds the page content under the
    text key (unless the embedding key is the same key) and the vector
    under the embedding key. *)
Lemma vectorRecord_fixed_fields self embedding document :
  (metadata document !! embeddingKey self = None →
   vectorRecord self embedding document !! embeddingKey self
     = Some (JArr (JNum <$> embedding)))
  ∧ (metadata document !! textKey self = None →
     textKey self ≠ embeddingKey self →
     vectorRecord self embedding document !! textKey self
       = Some (JStr (pageContent document))).
Proof.
  unfold vectorRecord. split.
  - intros Hm. rewrite lookup_union_r by done. by rewrite lookup_insert_eq.
  - intros Hm Hne. rewrite lookup_union_r by done.
    rewrite lookup_insert_ne by done. by rewrite lookup_insert_eq.
Qed.

(** C10. When the metadata of the document at index [idx] has a property
    named like the text key or like the embedding key, the record stored
    for that index holds the metadata value under that name. *)
Theorem addVectors_metadata_overrides self vectors documents collection
    idx embedding document key v :
  length vectors ≤ length documents →
  vectors !! idx = Some embedding →
  documents !! idx = Some document →
  key = textKey self ∨ key = embeddingKey self →
  metadata document !! key = Some v →
  ∃ stored,
    (addVectors self vectors documents collection).2 !! (length collection + idx)
      = Some stored
    ∧ stored = vectorRecord self embedding document
    ∧ stored !! key = Some v.
Proof.
  intros Hlen Hvec Hdoc _ Hmeta.
  unfold addVectors. rewrite addVectors_records, decide_True by done.
  unfold insertMany. cbn [snd].
  exists (vectorRecord self embedding document). split; [|split; [done|]].
  - rewrite lookup_app_r by lia.
    replace (length collection + idx - length collection) with idx by lia.
    by rewrite lookup_zip_with, Hvec, Hdoc.
  - by apply vectorRecord_metadata.
Qed.
End VectorStoreFacts.

(** C10, on a run: the second document has a metadata property "text". *)
Lemma addVectors_metadata_overrides_witness :
  ∃ stored,
    (MongoDBAtlasVectorSearch.addVectors AtlasExample.store
       [[1%Z; 2%Z]; [3%Z; 4%Z]] [AtlasExample.plain; AtlasExample.shadowing]
       []).2 !! (length ([] : list Obj) + 1) = Some stored
    ∧ stored = MongoDBAtlasVectorSearch.vectorRecord AtlasExample.store
                 [3%Z; 4%Z] AtlasExample.shadowing
    ∧ stored !! "text" = Some (JStr "from metadata").
Proof.
  apply (addVectors_metadata_overrides AtlasExample.store
           [[1%Z; 2%Z]; [3%Z; 4%Z]] [AtlasExample.plain; AtlasExample.shadowing]
           [] 1 [3%Z; 4%Z] AtlasExample.shadowing "text"
           (JStr "from metadata")).
  - simpl. lia.
  - reflexivity.
  - reflexivity.
  - by left.
  - reflexivity.
Defined.

Section SearchFacts.
Import MongoDBAtlasVectorSearch.

(** With a filter of the declared shape, the test
    [filter?.preFilter || filter?.postFilterPipeline] succeeds exactly when
    one of the two properties is there. *)
Lemma splitFilter_wellTyped (filter : Obj) :
  wellTyped filter →
  splitFilter (Some filter)
    = match filter !! "preFilter", filter !! "postFilterPipeline" with
      | None, None => (Some (JObj filter), None)
      | pre, post => (pre, post)
      end.
Proof.
  intros [Hpre Hpost]. unfold splitFilter, field. simpl.
  destruct (filter !! "preFilter") as [v|] eqn:Ev.
  - destruct (Hpre v eq_refl) as [m ->]. done.
  - destruct (filter !! "postFilterPipeline") as [v|] eqn:Ew; [|done].
    destruct (Hpost v eq_refl) as [l ->]. done.
Qed.

(** C9. For a filter of the declared shape: when it has a [preFilter] or
    a [postFilterPipeline] property, the [preFilter] (if any) becomes the
    filter of the kNN request, the stages of the [postFilterPipeline] (if
    any) follow the two fixed stages, and the pipeline does not depend on
    the other properties of the filter; when it has neither, the whole
    filter object becomes the filter of the kNN request. *)
Theorem searchPipeline_filter_fields (self : t) (query : list Z) (k : Z)
    (filter : Obj) :
  wellTyped filter →
  searchPipeline self query k (Some filter)
    = inr (match filter !! "preFilter", filter !! "postFilterPipeline" with
           | None, None =>
               searchStages self
                 (<["filter" := JObj filter]> (knnBetaRequest self query k))
           | pre, post =>
               searchStages self
                 (match pre with
                  | Some v => <["filter" := v]> (knnBetaRequest self query k)
                  | None => knnBetaRequest self query k
                  end)
               ++ match post with
                  | Some (JArr stages) => stages
                  | _ => []
                  end
           end)
  ∧ ∀ filter' : Obj,
      wellTyped filter' →
      filter' !! "preFilter" = filter !! "preFilter" →
      filter' !! "postFilterPipeline" = filter !! "postFilterPipeline" →
      is_Some (filter !! "preFilter")
        ∨ is_Some (filter !! "postFilterPipeline") →
      searchPipeline self query k (Some filter')
        = searchPipeline self query k (Some filter).
Proof.
  intros Hwt.
  assert (∀ f : Obj, wellTyped f →
    searchPipeline self query k (Some f)
    = inr (match f !! "preFilter", f !! "postFilterPipeline" with
           | None, None =>
               searchStages self
                 (<["filter" := JObj f]> (knnBetaRequest self query k))
           | pre, post =>
               searchStages self
                 (match pre with
                  | Some v => <["filter" := v]> (knnBetaRequest self query k)
                  | None => knnBetaRequest self query k
                  end)
               ++ match post with
                  | Some (JArr stages) => stages
                  | _ => []
                  end
           end)) as Hshape.
  { intros f Hf. unfold searchPipeline.
    rewrite (splitFilter_wellTyped f Hf). destruct Hf as [Hpre Hpost].
    destruct (f !! "preFilter") as [v|] eqn:Ev.
    - destruct (Hpre v eq_refl) as [m ->].
      destruct (f !! "postFilterPipeline") as [u|] eqn:Eu.
      + destruct (Hpost u eq_refl) as [l ->]. done.
      + simpl. by rewrite ?app_nil_r.
    - destruct (f !! "postFilterPipeline") as [u|] eqn:Eu; [|done].
      destruct (Hpost u eq_refl) as [l ->]. done. }
  split; [by apply Hshape|].
  intros filter' Hwt' Hpre Hpost Hsome.
  rewrite (Hshape filter' Hwt'), (Hshape filter Hwt), Hpre, Hpost.
  destruct (filter !! "preFilter"); [done|].
  destruct (filter !! "postFilterPipeline"); [done|].
  destruct Hsome as [[? ?]|[? ?]]; done.
Qed.
End SearchFacts.

Lemma structured_wellTyped :
  MongoDBAtlasVectorSearch.wellTyped AtlasExample.structured.
Proof.
  split; intros v Hv; vm_compute in Hv; injection Hv as <-; by eexists.
Defined.

(** C9, on a run: a filter with both explicit fields and a further
    property [year]; the pipeline holds the [preFilter] in the kNN request
    and ends with the [$limit] stage, and [year] appears nowhere. *)
Lemma searchPipeline_filter_fields_witness :
  MongoDBAtlasVectorSearch.searchPipeline AtlasExample.store [1%Z; 2%Z] 1
      (Some AtlasExample.structured)
    = inr (MongoDBAtlasVectorSearch.searchStages AtlasExample.store
             (<["filter" := JObj (<["genre" := JStr "drama"]> ∅)]>
                (MongoDBAtlasVectorSearch.knnBetaRequest AtlasExample.store
                   [1%Z; 2%Z] 1))
           ++ [JObj (<["$limit" := JNum 1]> ∅)]).
Proof.
  destruct (searchPipeline_filter_fields AtlasExample.store [1%Z; 2%Z] 1
              AtlasExample.structured structured_wellTyped) as [Hshape _].
  exact Hshape.
Defined.

(** * Further properties *)

(** ** Runnable.batch: failures, shared options, window size *)
Section RunnableMoreFacts.
Import Runnable.
Context {RunInput CallOptions RunOutput : Type}.
Variable emptyOptions : CallOptions.
Variable invoke : RunInput → option CallOptions → Promise RunOutput.
Implicit Types (inputs : list RunInput) (configList : list CallOptions).

Lemma all_fulfilled_values {A} (ps : list (Promise A)) :
  Forall (λ p, isFulfilled p = true) ps → ∃ vs, ps = Fulfilled <$> vs.
Proof.
  induction ps as [|p ps IH]; intros Hall; [by exists []|].
  apply Forall_cons in Hall as [Hp Hps]. destruct (IH Hps) as [vs ->].
  destruct p as [v| |]; try done. by exists (v :: vs).
Qed.

(** The promise of the invocation at position [k] of the window [w]. *)
Lemma window_promise_lookup inputs configList size w k :
  map (λ c : Call, invoke c.1 c.2) (windowCalls inputs configList (w * size) size)
    !! k
  = if decide (k < size)
    then (λ x, invoke x (configList !! k)) <$> inputs !! (w * size + k)
    else None.
Proof.
  change (map ?f ?l) with (f <$> l).
  rewrite list_lookup_fmap.
  etrans.
  { apply (f_equal (fmap (λ c : Call, invoke c.1 c.2))).
    apply windowCalls_lookup. }
  case_decide; [|done]. by destruct (inputs !! (w * size + k)).
Qed.

Lemma windowCalls_length inputs configList i size :
  length (windowCalls inputs configList i size)
    = length (slice i (i + size) inputs).
Proof. unfold windowCalls. by rewrite length_imap. Qed.

(** Loop invariant of [batch] up to the window [wf] that holds a failing
    invocation: the windows before [wf] fulfil, the window [wf] is issued
    in full and rejects, and the loop ends there. *)
Lemma batchLoop_rejects inputs configList size sched wf k0 x e :
  0 < size → k0 < size →
  settlesAll inputs size sched →
  inputs !! (wf * size + k0) = Some x →
  invoke x (configList !! k0) = Rejected e →
  (∀ i y, i ≠ wf * size + k0 → i < (wf + 1) * size → inputs !! i = Some y →
     isFulfilled (invoke y (configList !! (i `mod` size))) = true) →
  ∀ fuel w windows batchResults,
    w ≤ wf → 0 < fuel → length inputs < fuel + w * size →
    ∃ rest,
      batchLoop invoke fuel inputs configList size sched (w * size)
          windows batchResults
        = (windows ++ rest, Rejected e)
      ∧ length rest = wf - w + 1
      ∧ (concat rest).*1 = take ((wf - w + 1) * size) (drop (w * size) inputs).
Proof.
  intros Hsize Hk0 Hsched Hx Hfail Hothers.
  assert (wf * size + k0 < length inputs) as Hj by by eapply lookup_lt_Some.
  induction fuel as [|fuel IH]; intros w windows batchResults Hw Hfuel Henough;
    [lia|].
  assert (w * size < length inputs) as Hi by nia.
  cbn [batchLoop]. rewrite decide_True by done.
  set (calls := windowCalls inputs configList (w * size) size).
  match goal with |- context [promiseAll ?q _] => set (ps := q) end.
  assert (∀ k, ps !! k
               = if decide (k < size)
                 then (λ y, invoke y (configList !! k)) <$> inputs !! (w * size + k)
                 else None) as Hps
    by (intros k; apply window_promise_lookup).
  assert (length ps = length (slice (w * size) (w * size + size) inputs)) as Hpslen.
  { unfold ps. rewrite length_map. apply windowCalls_length. }
  pose proof (windowCalls_inputs inputs configList (w * size) size) as Hcalls.
  rewrite slice_take_drop in Hcalls. fold calls in Hcalls.
  assert (∀ k, k < size → (w * size + k) `mod` size = k) as Hmodk.
  { intros k Hk. rewrite Nat.add_comm, Nat.Div0.mod_add. by apply Nat.mod_small. }
  destruct (decide (w = wf)) as [->|Hne].
  - unfold promiseAll.
    rewrite (promiseAllFrom_rejected _ _ _ e).
    + exists [calls]. split; [done|]. split; [simpl; lia|].
      cbn [concat]. rewrite app_nil_r, Hcalls. f_equal. lia.
    + intros k e' Hk. rewrite Hps in Hk.
      case_decide as Hks; [|done].
      destruct (inputs !! (wf * size + k)) as [y|] eqn:Ey; [|done].
      simpl in Hk. injection Hk as Hk.
      destruct (decide (k = k0)) as [->|Hkne]; [congruence|].
      specialize (Hothers (wf * size + k) y ltac:(lia) ltac:(lia) Ey).
      rewrite Hmodk in Hothers by done. by rewrite Hk in Hothers.
    + exists k0. split.
      * apply Hsched. rewrite slice_take_drop, length_take, length_drop. lia.
      * rewrite Hps, decide_True, Hx by done. simpl. by rewrite Hfail.
  - assert (Forall (λ p, isFulfilled p = true) ps) as Hall.
    { apply Forall_lookup. intros k p Hk. rewrite Hps in Hk.
      case_decide as Hks; [|done].
      destruct (inputs !! (w * size + k)) as [y|] eqn:Ey; [|done].
      simpl in Hk. injection Hk as <-.
      specialize (Hothers (w * size + k) y ltac:(nia) ltac:(nia) Ey).
      by rewrite Hmodk in Hothers. }
    apply all_fulfilled_values in Hall as [vs Hvs]. rewrite Hvs.
    rewrite promiseAll_fulfilled; last first.
    { intros k Hk. apply Hsched.
      rewrite Hvs, length_fmap in Hpslen. lia. }
    destruct (IH (S w) (windows ++ [calls]) (batchResults ++ [vs]))
      as (rest & Hrun & Hlen & Hcat); [lia|lia|simpl; lia|].
    replace (w * size + size) with (S w * size) by lia.
    rewrite Hrun. exists (calls :: rest). split; [by rewrite <- app_assoc|].
    split; [simpl; lia|].
    cbn [concat]. rewrite fmap_app, Hcalls, Hcat.
    replace (S w * size) with (w * size + size) by lia.
    rewrite <- drop_drop, take_take_drop. f_equal. nia.
Qed.

(** X1. A per-input options array whose length differs from the number
    of inputs makes [batch] reject with the mismatch error, which carries
    both lengths, before any invocation is issued, whatever the window
    size. *)
Theorem batch_rejects_mismatched_options inputs (os : list CallOptions)
    maxConcurrency sched :
  length os ≠ length inputs →
  batch emptyOptions invoke inputs (PerInput os) maxConcurrency sched
    = ([], Rejected (OptionsLengthMismatch (length os) (length inputs))).
Proof.
  intros Hne. unfold batch. cbn [_getOptionsList].
  destruct (decide (length os ≠ length inputs)) as [_|Heq]; [done|].
  by destruct Heq.
Qed.

(** X2. A rejected invocation makes [batch] reject with its reason; the
    window of that invocation is issued in full, and no input of a later
    window is ever invoked. *)
Theorem batch_stops_at_first_failing_window inputs options maxConcurrency sched
    configList j x e :
  _getOptionsList emptyOptions options (length inputs) = inr configList →
  settlesAll inputs (batchSize maxConcurrency (length inputs)) sched →
  inputs !! j = Some x →
  invoke x (configList !! (j `mod` batchSize maxConcurrency (length inputs)))
    = Rejected e →
  (∀ i y, i ≠ j →
     i < (j `div` batchSize maxConcurrency (length inputs) + 1)
         * batchSize maxConcurrency (length inputs) →
     inputs !! i = Some y →
     isFulfilled
       (invoke y (configList !!
                    (i `mod` batchSize maxConcurrency (length inputs)))) = true) →
  ∃ windows,
    batch emptyOptions invoke inputs options maxConcurrency sched
      = (windows, Rejected e)
    ∧ length windows = j `div` batchSize maxConcurrency (length inputs) + 1
    ∧ (concat windows).*1
      = take ((j `div` batchSize maxConcurrency (length inputs) + 1)
              * batchSize maxConcurrency (length inputs)) inputs.
Proof.
  intros Hcfg Hsched Hx Hfail Hothers. unfold batch. rewrite Hcfg.
  assert (inputs ≠ []) as Hne by (intros ->; done).
  set (size := batchSize maxConcurrency (length inputs)) in *.
  assert (0 < size) as Hsize by by apply batchSize_pos.
  pose proof (Nat.div_mod_eq j size) as Hdm.
  pose proof (Nat.mod_upper_bound j size ltac:(lia)) as Hmod.
  assert (j = j `div` size * size + j `mod` size) as Hj by lia.
  assert (inputs !! (j `div` size * size + j `mod` size) = Some x) as Hx'
    by by rewrite <- Hj.
  assert (∀ i y, i ≠ j `div` size * size + j `mod` size →
            i < (j `div` size + 1) * size → inputs !! i = Some y →
            isFulfilled (invoke y (configList !! (i `mod` size))) = true)
    as Hothers'.
  { intros i y Hi. apply Hothers. lia. }
  destruct (batchLoop_rejects inputs configList size sched
              (j `div` size) (j `mod` size) x e Hsize Hmod Hsched Hx' Hfail
              Hothers' (S (length inputs)) 0 [] [])
    as (rest & Hrun & Hlen & Hcat); [lia|lia|simpl; lia|].
  change (0 * size) with 0 in Hrun, Hcat. rewrite drop_0 in Hcat.
  exists rest. rewrite Nat.sub_0_r in Hlen, Hcat.
  split; [exact Hrun|]. done.
Qed.

(** Every window issued by the loop is a window of calls of [batch]. *)
Lemma batchLoop_windows (P : list Call → Prop) inputs configList size sched :
  (∀ i, P (windowCalls inputs configList i size)) →
  ∀ fuel i windows batchResults,
    Forall P windows →
    Forall P (batchLoop invoke fuel inputs configList size sched i windows
                batchResults).1.
Proof.
  intros Hwin. induction fuel as [|fuel IH]; intros i windows batchResults HP;
    [done|].
  cbn [batchLoop]. case_decide; [|done].
  assert (Forall P (windows ++ [windowCalls inputs configList i size])) as HP'.
  { apply Forall_app. split; [done|]. by apply Forall_singleton. }
  destruct (promiseAll _ _); [by apply IH|done..].
Qed.

(** X3. With one options object for the whole batch, or none, every
    invocation of every window receives that object, respectively the
    empty options. *)
Theorem batch_shared_options_reach_every_call inputs (o : CallOptions)
    maxConcurrency sched :
  Forall (Forall (λ c : RunInput * option CallOptions, c.2 = Some o))
    (batch emptyOptions invoke inputs (Shared o) maxConcurrency sched).1
  ∧ Forall (Forall (λ c : RunInput * option CallOptions, c.2 = Some emptyOptions))
      (batch emptyOptions invoke inputs NoOptions maxConcurrency sched).1.
Proof.
  assert (∀ o' size i,
    Forall (λ c : RunInput * option CallOptions, c.2 = Some o')
      (windowCalls inputs (replicate (length inputs) o') i size)) as Hwin.
  { intros o' size i. apply Forall_lookup. intros k c Hk.
    unfold windowCalls in Hk. apply list_lookup_imap_Some in Hk as (y & Hy & ->).
    simpl. apply lookup_replicate_2.
    apply lookup_lt_Some in Hy. unfold slice in Hy.
    rewrite length_take, length_drop in Hy. lia. }
  split; unfold batch; cbn [_getOptionsList];
    (apply batchLoop_windows; [intros i; apply Hwin|done]).
Qed.

(** X4. A [maxConcurrency] of zero or below is no bound: [batch] behaves
    as it does without [maxConcurrency]. *)
Theorem batch_nonpositive_maxConcurrency inputs options (m : Z) sched :
  (m ≤ 0)%Z →
  batch emptyOptions invoke inputs options (Some m) sched
    = batch emptyOptions invoke inputs options None sched.
Proof.
  intros Hm. unfold batch, batchSize.
  destruct (Z.eqb_spec m 0) as [->|Hne]; [done|]. simpl.
  destruct (Z.ltb_spec 0 m); [lia|done].
Qed.
End RunnableMoreFacts.

(** X1, on a run: two options for three inputs. *)
Lemma batch_rejects_mismatched_options_witness :
  Runnable.batch "" EchoRunnable.invoke [10; 20; 30]
      (Runnable.PerInput ["first"; "second"]) None EchoRunnable.lastFirst
    = ([], Rejected (OptionsLengthMismatch 2 3)).
Proof.
  apply (batch_rejects_mismatched_options "" EchoRunnable.invoke [10; 20; 30]
           ["first"; "second"] None EchoRunnable.lastFirst).
  simpl. lia.
Defined.

(** X2, on a run: five inputs in windows of two, the third input
    failing; the fourth is still invoked, the fifth never is. *)
Lemma batch_stops_at_first_failing_window_witness :
  ∃ windows,
    Runnable.batch "" FlakyRunnable.invoke [10; 20; 13; 40; 50]
        Runnable.NoOptions (Some 2%Z) FlakyRunnable.inOrder
      = (windows, Rejected (Thrown "unlucky"))
    ∧ length windows = 2 `div` 2 + 1
    ∧ (concat windows).*1 = take ((2 `div` 2 + 1) * 2) [10; 20; 13; 40; 50].
Proof.
  apply (batch_stops_at_first_failing_window "" FlakyRunnable.invoke
           [10; 20; 13; 40; 50] Runnable.NoOptions (Some 2%Z)
           FlakyRunnable.inOrder [""; ""; ""; ""; ""] 2 13 (Thrown "unlucky")).
  - reflexivity.
  - intros i k Hk. unfold slice in Hk. rewrite length_take in Hk.
    change (Runnable.batchSize (Some 2%Z) (length [10; 20; 13; 40; 50]))
      with 2 in Hk.
    unfold FlakyRunnable.inOrder. destruct k as [|[|k]]; [set_solver..|lia].
  - reflexivity.
  - reflexivity.
  - intros [|[|[|[|i]]]] y Hne Hlt Hy; try done; try (by injection Hy as <-).
    change ((2 `div` Runnable.batchSize (Some 2%Z) (length [10; 20; 13; 40; 50])
             + 1) * Runnable.batchSize (Some 2%Z) (length [10; 20; 13; 40; 50]))
      with 4 in Hlt.
    lia.
Defined.

(** X4, on a run. *)
Lemma batch_nonpositive_maxConcurrency_witness :
  Runnable.batch "" EchoRunnable.invoke [10; 20; 30] Runnable.NoOptions
      (Some (-1)%Z) EchoRunnable.lastFirst
    = Runnable.batch "" EchoRunnable.invoke [10; 20; 30] Runnable.NoOptions
        None EchoRunnable.lastFirst.
Proof.
  apply (batch_nonpositive_maxConcurrency "" EchoRunnable.invoke [10; 20; 30]
           Runnable.NoOptions (-1)%Z EchoRunnable.lastFirst).
  lia.
Defined.

(** ** Promise.all: where a rejection comes from *)
Section PromiseMoreFacts.
Context {A : Type}.
Implicit Types (ps : list (Promise A)) (order : list nat).



Lemma promiseAll_singleton (p : Promise A) order :
  0 ∈ order → p ≠ Pending →
  promiseAll [p] order
    = match p with
      | Fulfilled v => Fulfilled [v]
      | Rejected e => Rejected e
      | Pending => Pending
      end.
Proof.
  intros H0 Hp. destruct p as [v|e|]; [| |done].
  - apply (promiseAll_fulfilled [v]). intros [|k] Hk; [done|simpl in Hk; lia].
  - unfold promiseAll. apply promiseAllFrom_rejected.
    + intros [|k] e' Hk; simpl in Hk; [congruence|done].
    + by exists 0.
Qed.
End PromiseMoreFacts.

(** ** BaseChatModel: options, generate, call, predict *)
Section ChatModelMoreFacts.
Import BaseChatModel.
Variable configure :
  option Callbacks → option Callbacks →
  option (list string) → option (list string) →
  option Obj → option Obj → bool → option CallbackManager.
Context {BaseLanguageModelInput BasePromptValue : Type}.
Variable _convertInputToPromptValue : BaseLanguageModelInput → BasePromptValue.
Variable toChatMessages : BasePromptValue → list BaseMessage.
Implicit Types (self : t) (messages : list (list BaseMessage))
  (options : GenerateOptions) (w : World).


(** The events of a call to [generate] whose primitives all settle: the
    start notifications, the calls to the primitive, the notifications of
    the results. *)
Lemma generate_newEvents self messages options callbacks_ order w :
  Forall (λ p, p ≠ Pending)
    (callGenerate self <$> issuedCalls configure self messages options callbacks_ w) →
  ∃ starts,
    (∀ ev, ev ∈ starts → isStart ev = true)
    ∧ length starts
      = match issuedHandles configure self messages options callbacks_ w with
        | Some _ => length messages
        | None => 0
        end
    ∧ newEvents w (generate configure self messages options callbacks_ order w).2
      = starts
        ++ (generateEvent <$>
              issuedCalls configure self messages options callbacks_ w)
        ++ mjoin (imap (resultNotification
                          (issuedHandles configure self messages options
                             callbacks_ w))
                    (callGenerate self <$>
                       issuedCalls configure self messages options callbacks_ w)).
Proof.
  intros Hsettled. rewrite generate_settled by done. cbn [snd].
  unfold issuedHandles.
  destruct (configuredManager configure self (parseOptions options) callbacks_)
    as [cm|] eqn:Hcm.
  - eexists. split; [|split]; last first.
    + apply newEvents_emit. by erewrite generateStart_Some.
    + erewrite generateStart_Some by done. simpl. by rewrite length_imap.
    + intros ev Hev. apply list_elem_of_lookup in Hev as [j Hj].
      by apply list_lookup_imap_Some in Hj as (z & Hz & ->).
  - exists []. split; [set_solver|]. split.
    + by rewrite generateStart_None.
    + apply newEvents_emit. rewrite generateStart_None by done.
      by rewrite app_nil_r.
Qed.

(** X6. The result of a successful [generate] is the combination of the
    results of the primitive in the order of the message-lists: the
    generations at index [i] are those returned for message-list [i],
    called with [promptIndex = i] and the handle of that list, with or
    without a callback manager. *)
Theorem generate_output_combines_results self messages options callbacks_
    order w output w' :
  generate configure self messages options callbacks_ order w
    = (Fulfilled output, w') →
  ∃ results,
    output = combinedOutput self results
               (issuedHandles configure self messages options callbacks_ w)
    ∧ length (lr_generations output) = length messages
    ∧ lr_runIds output
      = (λ rms : list CallbackManagerForLLMRun, runId <$> rms)
          <$> issuedHandles configure self messages options callbacks_ w
    ∧ ∀ i messageList, messages !! i = Some messageList →
        ∃ r, results !! i = Some r
          ∧ _generate self messageList
              (withPromptIndex (parseOptions options) i)
              (runManagerAt
                 (issuedHandles configure self messages options callbacks_ w) i)
            = Fulfilled r
          ∧ lr_generations output !! i = Some (cr_generations r).
Proof.
  intros Hrun.
  apply generate_Fulfilled_inv in Hrun as (values & Hvalues & -> & _).
  exists values.
  assert (length values = length messages) as Hlen.
  { apply (f_equal length) in Hvalues. rewrite !length_fmap in Hvalues.
    unfold issuedCalls, generateCalls in Hvalues.
    by rewrite length_imap in Hvalues. }
  split; [done|]. split; [simpl; by rewrite length_fmap|]. split; [done|].
  intros i messageList Hi.
  destruct (lookup_lt_is_Some_2 values i) as [r Hr];
    [rewrite Hlen; by eapply lookup_lt_Some|].
  exists r. split; [done|]. split.
  - apply (f_equal (λ l, l !! i)) in Hvalues.
    rewrite !list_lookup_fmap, Hr in Hvalues.
    unfold issuedCalls, generateCalls in Hvalues.
    rewrite list_lookup_imap, Hi in Hvalues.
    cbn [fmap option_fmap option_map] in Hvalues.
    unfold callGenerate in Hvalues. cbn [fst snd] in Hvalues. congruence.
  - simpl. by rewrite list_lookup_fmap, Hr.
Qed.

(** X7. Whatever the number of failing primitives, once they have all
    settled the handle of every message-list has received exactly one
    closing notification: the end notification with the result when its
    primitive fulfilled, the error notification with the reason when it
    rejected. *)
Theorem generate_closes_every_run self messages options callbacks_ order w
    runManagers j rm :
  Forall (λ p, p ≠ Pending)
    (callGenerate self <$> issuedCalls configure self messages options callbacks_ w) →
  issuedHandles configure self messages options callbacks_ w = Some runManagers →
  runManagers !! j = Some rm →
  ∃ c,
    issuedCalls configure self messages options callbacks_ w !! j = Some c
    ∧ List.filter (closesRun (runId rm))
        (newEvents w
           (generate configure self messages options callbacks_ order w).2)
      = match callGenerate self c with
        | Fulfilled result =>
            [EvLLMEnd (runId rm) [Some <$> cr_generations result]
               (cr_llmOutput result)]
        | Rejected reason => [EvLLMError (runId rm) reason]
        | Pending => []
        end.
Proof.
  intros Hsettled Hrms Hj.
  destruct (generate_newEvents self messages options callbacks_ order w Hsettled)
    as (starts & Hstarts & _ & ->).
  pose proof Hrms as Hrms'. unfold issuedHandles in Hrms'.
  apply generateStart_handles in Hrms'. subst runManagers.
  rewrite list_lookup_imap in Hj.
  destruct (messages !! j) as [messageList|] eqn:Ej; [|done].
  injection Hj as <-. simpl.
  assert (j < length messages) as Hjlt by by eapply lookup_lt_Some.
  destruct (lookup_lt_is_Some_2
              (issuedCalls configure self messages options callbacks_ w) j)
    as [c Hc].
  { unfold issuedCalls, generateCalls. by rewrite length_imap. }
  exists c. split; [done|].
  rewrite !List.filter_app.
  rewrite (filter_none _ starts), (filter_none _ (generateEvent <$> _)).
  - simpl. rewrite Hrms.
    rewrite (filter_mjoin_imap_at _ _ _ j (callGenerate self c)).
    + unfold resultNotification. rewrite runManagerAt_handles.
      rewrite decide_True by done. by destruct (callGenerate self c).
    + intros k y ev Hk Hev.
      apply resultNotification_elem in Hev as (_ & _ & rm & Hrm & Hrun).
      rewrite Hrun. rewrite runManagerAt_handles in Hrm.
      case_decide; [|done]. injection Hrm as <-. simpl.
      apply bool_decide_ext_eqb. lia.
    + by rewrite list_lookup_fmap, Hc.
  - intros ev Hev. by apply list_elem_of_fmap in Hev as (c' & -> & _).
  - intros ev Hev. by apply start_event_kind, Hstarts.
Qed.


End ChatModelMoreFacts.

Section ChatModelCallFacts.
Import BaseChatModel.
Variable configure :
  option Callbacks → option Callbacks →
  option (list string) → option (list string) →
  option Obj → option Obj → bool → option CallbackManager.
Context {BaseLanguageModelInput BasePromptValue : Type}.
Variable _convertInputToPromptValue : BaseLanguageModelInput → BasePromptValue.
Variable toChatMessages : BasePromptValue → list BaseMessage.
Implicit Types (self : t) (options : GenerateOptions) (w : World).

(** [generate] over a single message-list whose primitive has settled. *)
Lemma generate_single self (messageList : list BaseMessage) options callbacks_
    order w :
  0 ∈ order →
  _generate self messageList (withPromptIndex (parseOptions options) 0)
    (runManagerAt
       (issuedHandles configure self [messageList] options callbacks_ w) 0)
    ≠ Pending →
  (generate configure self [messageList] options callbacks_ order w).1
    = match _generate self messageList
              (withPromptIndex (parseOptions options) 0)
              (runManagerAt
                 (issuedHandles configure self [messageList] options
                    callbacks_ w) 0) with
      | Fulfilled r =>
          Fulfilled (combinedOutput self [r]
                       (issuedHandles configure self [messageList] options
                          callbacks_ w))
      | Rejected e => Rejected e
      | Pending => Pending
      end.
Proof.
  intros H0 Hp. rewrite generate_settled.
  - cbn [fst]. unfold issuedCalls, generateCalls, callGenerate.
    cbn [imap fmap list_fmap fst snd].
    rewrite promiseAll_singleton by done. by destruct (_generate _ _ _ _).
  - unfold issuedCalls, generateCalls, callGenerate.
    cbn [imap fmap list_fmap fst snd]. by apply Forall_singleton.
Qed.

(** X10. [invoke] returns the message of the first generation of the
    primitive's result.  When the primitive fulfils with no generation,
    [invoke] rejects with a [TypeError], after the run has been closed by
    an end notification and without any error notification. *)
Theorem invoke_returns_first_generation self input (options : option CallOptions)
    order w r :
  0 ∈ order →
  _generate self (toChatMessages (_convertInputToPromptValue input))
    (withPromptIndex
       (parseOptions (match options with Some o => Options o | None => NoOptions end))
       0)
    (runManagerAt
       (issuedHandles configure self
          [toChatMessages (_convertInputToPromptValue input)]
          (match options with Some o => Options o | None => NoOptions end)
          (options ≫= callbacks) w) 0)
    = Fulfilled r →
  (invoke configure _convertInputToPromptValue toChatMessages self input
     options order w).1
    = match cr_generations r with
      | g :: _ => Fulfilled (message g)
      | [] => Rejected (TypeError "Cannot read properties of undefined")
      end
  ∧ count isError
      (newEvents w
         (invoke configure _convertInputToPromptValue toChatMessages self input
            options order w).2) = 0
  ∧ count isEnd
      (newEvents w
         (invoke configure _convertInputToPromptValue toChatMessages self input
            options order w).2)
    = match issuedHandles configure self
              [toChatMessages (_convertInputToPromptValue input)]
              (match options with Some o => Options o | None => NoOptions end)
              (options ≫= callbacks) w with
      | Some _ => 1
      | None => 0
      end.
Proof.
  intros H0 Hr.
  set (messageList := toChatMessages (_convertInputToPromptValue input)) in *.
  set (opts := match options with Some o => Options o | None => NoOptions end)
    in *.
  assert (callGenerate self <$>
            issuedCalls configure self [messageList] opts (options ≫= callbacks) w
          = [Fulfilled r]) as Hcalls.
  { unfold issuedCalls, generateCalls, callGenerate.
    cbn [imap fmap list_fmap fst snd]. by rewrite Hr. }
  assert (Forall (λ p, p ≠ Pending)
            (callGenerate self <$>
               issuedCalls configure self [messageList] opts
                 (options ≫= callbacks) w)) as Hsettled.
  { rewrite Hcalls. by apply Forall_singleton. }
  assert (invoke configure _convertInputToPromptValue toChatMessages self input
            options order w
          = (match (generate configure self [messageList] opts
                      (options ≫= callbacks) order w).1 with
             | Fulfilled result =>
                 match lr_generations result !! 0 ≫= (λ gens, gens !! 0) with
                 | Some chatGeneration => Fulfilled (message chatGeneration)
                 | None =>
                     Rejected (TypeError "Cannot read properties of undefined")
                 end
             | Rejected reason => Rejected reason
             | Pending => Pending
             end,
             (generate configure self [messageList] opts
                (options ≫= callbacks) order w).2)) as ->.
  { unfold invoke, generatePrompt. cbn [fmap list_fmap].
    fold messageList opts. by destruct (generate _ _ _ _ _ _ _). }
  cbn [fst snd]. split.
  - rewrite generate_single by (done || by rewrite Hr).
    fold messageList opts. rewrite Hr. simpl. by destruct (cr_generations r).
  - destruct (generate_newEvents configure self [messageList] opts
                (options ≫= callbacks) order w Hsettled)
      as (starts & Hstarts & _ & ->).
    rewrite Hcalls. unfold count. rewrite !List.filter_app.
    assert (∀ p : Event → bool, (∀ ev, isStart ev = true → p ev = false) →
              List.filter p starts = []) as Hs.
    { intros p Hp. apply filter_none. intros ev Hev. by apply Hp, Hstarts. }
    assert (∀ p : Event → bool, (∀ c, p (generateEvent c) = false) →
              List.filter p
                (generateEvent <$>
                   issuedCalls configure self [messageList] opts
                     (options ≫= callbacks) w) = []) as Hc.
    { intros p Hp. apply filter_none. intros ev Hev.
      by apply list_elem_of_fmap in Hev as (c' & -> & _). }
    rewrite !Hs, !Hc by (done || by intros []).
    cbn [imap mjoin list_join app]. unfold resultNotification.
    destruct (issuedHandles configure self [messageList] opts
                (options ≫= callbacks) w) as [rms|] eqn:Eh; [|done].
    unfold issuedHandles in Eh. apply generateStart_handles in Eh as ->.
    by rewrite runManagerAt_handles.
Qed.

(** [invoke] is [callPrompt] on the converted input, with the
    callbacks of the options as callbacks argument: same outcome, same
    events. *)
Theorem invoke_is_callPrompt self input (options : option CallOptions) order w :
  invoke configure _convertInputToPromptValue toChatMessages self input
      options order w
    = callPrompt configure toChatMessages self
        (_convertInputToPromptValue input)
        (match options with Some o => Options o | None => NoOptions end)
        (options ≫= callbacks) order w.
Proof. reflexivity. Qed.

(** X11. On a [SimpleChatModel], [call] answers with the [AIMessage] of
    the text returned by [_call], and [predict] with that text itself;
    both reject with the reason of [_call] when it rejects, and never
    with a [TypeError]. *)
Theorem simple_model_call_and_predict (fields : t)
    (_call : list BaseMessage → CallOptions →
             option CallbackManagerForLLMRun → Promise string)
    (messageList : list BaseMessage) (text_ : string) options callbacks_
    order w :
  0 ∈ order →
  (call configure (SimpleChatModel.model fields _call) messageList options
     callbacks_ order w).1
    = match _call messageList (withPromptIndex (parseOptions options) 0)
              (runManagerAt
                 (issuedHandles configure (SimpleChatModel.model fields _call)
                    [messageList] options callbacks_ w) 0) with
      | Fulfilled answer => Fulfilled (AIMessage answer)
      | Rejected reason => Rejected reason
      | Pending => Pending
      end
  ∧ (predict configure (SimpleChatModel.model fields _call) text_ options
       callbacks_ order w).1
    = _call [HumanMessage text_] (withPromptIndex (parseOptions options) 0)
        (runManagerAt
           (issuedHandles configure (SimpleChatModel.model fields _call)
              [[HumanMessage text_]] options callbacks_ w) 0).
Proof.
  intros H0.
  assert (∀ ml,
    (call configure (SimpleChatModel.model fields _call) ml options
       callbacks_ order w).1
    = match _call ml (withPromptIndex (parseOptions options) 0)
              (runManagerAt
                 (issuedHandles configure (SimpleChatModel.model fields _call)
                    [ml] options callbacks_ w) 0) with
      | Fulfilled answer => Fulfilled (AIMessage answer)
      | Rejected reason => Rejected reason
      | Pending => Pending
      end) as Hcall.
  { intros ml.
    assert (call configure (SimpleChatModel.model fields _call) ml options
              callbacks_ order w
            = (match (generate configure (SimpleChatModel.model fields _call)
                        [ml] options callbacks_ order w).1 with
               | Fulfilled result =>
                   match lr_generations result !! 0 ≫= (λ gens, gens !! 0) with
                   | Some chatGeneration => Fulfilled (message chatGeneration)
                   | None =>
                       Rejected (TypeError "Cannot read properties of undefined")
                   end
               | Rejected reason => Rejected reason
               | Pending => Pending
               end,
               (generate configure (SimpleChatModel.model fields _call)
                  [ml] options callbacks_ order w).2)) as ->.
    { unfold call. by destruct (generate _ _ _ _ _ _ _). }
    cbn [fst].
    destruct (_call ml (withPromptIndex (parseOptions options) 0)
                (runManagerAt
                   (issuedHandles configure (SimpleChatModel.model fields _call)
                      [ml] options callbacks_ w) 0)) as [answer|reason|] eqn:Ec.
    - rewrite generate_single; cbn [_generate SimpleChatModel.model];
        unfold SimpleChatModel._generate; rewrite ?Ec; done.
    - rewrite generate_single; cbn [_generate SimpleChatModel.model];
        unfold SimpleChatModel._generate; rewrite ?Ec; done.
    - unfold generate, issuedHandles in *.
      destruct (generateStart _ _ _ _ _ _) as [runManagers w1].
      cbn [fst snd] in *. unfold generateCalls, callGenerate.
      cbn [imap fmap list_fmap fst snd _generate SimpleChatModel.model].
      unfold SimpleChatModel._generate. by rewrite Ec. }
  split; [apply Hcall|].
  assert (predict configure (SimpleChatModel.model fields _call) text_ options
            callbacks_ order w
          = (match (call configure (SimpleChatModel.model fields _call)
                      [HumanMessage text_] options callbacks_ order w).1 with
             | Fulfilled result => Fulfilled (content result)
             | Rejected reason => Rejected reason
             | Pending => Pending
             end,
             (call configure (SimpleChatModel.model fields _call)
                [HumanMessage text_] options callbacks_ order w).2)) as ->.
  { unfold predict. by destruct (call _ _ _ _ _ _ _). }
  cbn [fst]. rewrite Hcall. by destruct (_call _ _ _).
Qed.


Lemma string_app_nil_r (s : string) : s +:+ "" = s.
Proof.
  induction s as [|a s IH]; [done|].
  change (String a (s +:+ "") = String a s). by rewrite IH.
Qed.

(** X13. The fold of the chunks of a stream drops no text: the text and
    the message content of the combined generation are the texts and the
    contents of the chunks, concatenated in order. *)
Theorem foldChunks_keeps_every_chunk (c : ChatGeneration)
    (chunks : list ChatGeneration) :
  ∃ g,
    foldChunks (c :: chunks) = Some g
    ∧ content (message g)
      = foldr (λ ch acc, content (message ch) +:+ acc) "" (c :: chunks)
    ∧ text g = foldr (λ ch acc, text ch +:+ acc) "" (c :: chunks).
Proof.
  revert c. induction chunks as [|c' chunks IH]; intros c.
  - exists c. simpl. by rewrite !string_app_nil_r.
  - destruct (IH c') as (g' & Hg' & Hcontent & Htext).
    exists (ChatGenerationChunk.concat c g').
    change (foldChunks (c :: c' :: chunks))
      with (foldl accumulate (Some c) (c' :: chunks)).
    rewrite foldl_accumulate_Some, Hg'. split; [done|].
    cbn [foldr]. cbn [foldr] in Hcontent, Htext.
    rewrite <- Hcontent, <- Htext. done.
Qed.
End ChatModelCallFacts.

(** ** MongoDBAtlasVectorSearch: documents, results, pipeline *)
Section VectorStoreMoreFacts.
Import MongoDBAtlasVectorSearch.
Variable embedDocuments : list string → Promise (list (list Z)).
Implicit Types (self : t) (documents : list Document) (collection : Collection).

(** X14. When the embedding provider answers with one vector per
    document, [addDocuments] sends it the page contents in document order
    and stores one record per document, the record at index [i] holding
    vector [i] and document [i], after the records already there. *)
Theorem addDocuments_one_record_per_document self documents collection vectors :
  embedDocuments (pageContent <$> documents) = Fulfilled vectors →
  length vectors = length documents →
  addDocuments embedDocuments self documents collection
    = (Fulfilled tt,
       collection ++ zip_with (vectorRecord self) vectors documents)
  ∧ length (addDocuments embedDocuments self documents collection).2
    = length collection + length documents.
Proof.
  intros Hembed Hlen.
  assert (addDocuments embedDocuments self documents collection
          = (Fulfilled tt,
             collection ++ zip_with (vectorRecord self) vectors documents)) as ->.
  { unfold addDocuments. rewrite Hembed. unfold addVectors, insertMany.
    rewrite addVectors_records, decide_True by lia. done. }
  split; [done|]. cbn [snd]. rewrite length_app, length_zip_with. lia.
Qed.

(** X15. [addDocuments] only ever appends: the records already in the
    collection are kept as they are, and a call that does not fulfil,
    because the provider or the pairing failed, stores nothing. *)
Theorem addDocuments_appends_or_stores_nothing self documents collection :
  ∃ added,
    (addDocuments embedDocuments self documents collection).2
      = collection ++ added
    ∧ ((addDocuments embedDocuments self documents collection).1 ≠ Fulfilled tt →
       added = [])
    ∧ ((addDocuments embedDocuments self documents collection).1 = Fulfilled tt →
       ∃ vectors,
         embedDocuments (pageContent <$> documents) = Fulfilled vectors
         ∧ length vectors ≤ length documents
         ∧ added = zip_with (vectorRecord self) vectors documents).
Proof.
  unfold addDocuments.
  destruct (embedDocuments (pageContent <$> documents)) as [vectors|e|].
  - unfold addVectors, insertMany. rewrite addVectors_records.
    case_decide as Hlen.
    + eexists. split; [done|]. split; [done|]. intros _. by exists vectors.
    + exists []. by rewrite app_nil_r.
  - exists []. by rewrite app_nil_r.
  - exists []. by rewrite app_nil_r.
Qed.








Lemma fromTextsDocs_shared (texts : list string) (m : Obj) :
  fromTextsDocs texts (MetadataShared m) = (λ t, MkDocument t m) <$> texts.
Proof.
  apply list_eq. intros i. unfold fromTextsDocs.
  by rewrite list_lookup_imap, list_lookup_fmap.
Qed.

End VectorStoreMoreFacts.

(** ** Runs of the further properties *)


(** X6, on a run without callback manager. *)
Lemma generate_output_combines_results_witness :
  ∃ output w',
    BaseChatModel.generate HelloChat.configure (HelloChat.model None)
        [[HelloChat.human "hi"]; [HelloChat.human "yo"]]
        BaseChatModel.NoOptions None [1; 0] HelloChat.initial
      = (Fulfilled output, w')
    ∧ ∃ results,
        output = BaseChatModel.combinedOutput (HelloChat.model None) results
                   (BaseChatModel.issuedHandles HelloChat.configure
                      (HelloChat.model None)
                      [[HelloChat.human "hi"]; [HelloChat.human "yo"]]
                      BaseChatModel.NoOptions None HelloChat.initial)
        ∧ length (lr_generations output) = 2
        ∧ lr_runIds output = None.
Proof.
  eexists _, _. split; [reflexivity|].
  destruct (generate_output_combines_results HelloChat.configure
              (HelloChat.model None)
              [[HelloChat.human "hi"]; [HelloChat.human "yo"]]
              BaseChatModel.NoOptions None [1; 0] HelloChat.initial _ _ eq_refl)
    as (results & Hout & Hlen & Hids & _).
  exists results. split; [exact Hout|]. split; [exact Hlen|exact Hids].
Defined.

(** X7, on a run: two of three primitives fail. *)
Lemma generate_closes_every_run_witness :
  ∃ c,
    BaseChatModel.issuedCalls HelloChat.configure
        (HelloChat.model (Some ["tracer"]))
        [[HelloChat.human "fail"]; [HelloChat.human "hi"]; [HelloChat.human "fail"]]
        BaseChatModel.NoOptions None HelloChat.initial !! 2 = Some c
    ∧ List.filter (closesRun (runId (MkRunManager 2)))
        (newEvents HelloChat.initial
           (BaseChatModel.generate HelloChat.configure
              (HelloChat.model (Some ["tracer"]))
              [[HelloChat.human "fail"]; [HelloChat.human "hi"];
               [HelloChat.human "fail"]]
              BaseChatModel.NoOptions None [0; 1; 2] HelloChat.initial).2)
      = match BaseChatModel.callGenerate (HelloChat.model (Some ["tracer"])) c with
        | Fulfilled result =>
            [EvLLMEnd (runId (MkRunManager 2)) [Some <$> cr_generations result]
               (cr_llmOutput result)]
        | Rejected reason => [EvLLMError (runId (MkRunManager 2)) reason]
        | Pending => []
        end.
Proof.
  apply (generate_closes_every_run HelloChat.configure
           (HelloChat.model (Some ["tracer"]))
           [[HelloChat.human "fail"]; [HelloChat.human "hi"];
            [HelloChat.human "fail"]]
           BaseChatModel.NoOptions None [0; 1; 2] HelloChat.initial
           [MkRunManager 0; MkRunManager 1; MkRunManager 2] 2 (MkRunManager 2)).
  - repeat constructor; done.
  - reflexivity.
  - reflexivity.
Defined.


(** X10, on a run: a primitive that returns no generation. *)
Lemma invoke_returns_first_generation_witness :
  (BaseChatModel.invoke HelloChat.configure id id
     (HelloChat.silentModel (Some ["tracer"])) [HelloChat.human "hi"] None [0]
     HelloChat.initial).1
    = Rejected (TypeError "Cannot read properties of undefined")
  ∧ count isError
      (newEvents HelloChat.initial
         (BaseChatModel.invoke HelloChat.configure id id
            (HelloChat.silentModel (Some ["tracer"])) [HelloChat.human "hi"]
            None [0] HelloChat.initial).2) = 0
  ∧ count isEnd
      (newEvents HelloChat.initial
         (BaseChatModel.invoke HelloChat.configure id id
            (HelloChat.silentModel (Some ["tracer"])) [HelloChat.human "hi"]
            None [0] HelloChat.initial).2) = 1.
Proof.
  apply (invoke_returns_first_generation HelloChat.configure id id
           (HelloChat.silentModel (Some ["tracer"])) [HelloChat.human "hi"]
           None [0] HelloChat.initial (MkChatResult [] None)).
  - set_solver.
  - reflexivity.
Defined.

(** X11, on a run: [predict] on a simple chat model. *)
Lemma simple_model_call_and_predict_witness :
  (BaseChatModel.call HelloChat.configure
     (SimpleChatModel.model (HelloChat.model None) HelloChat._call)
     [HelloChat.human "hi"] BaseChatModel.NoOptions None [0]
     HelloChat.initial).1
    = Fulfilled (AIMessage "hi")
  ∧ (BaseChatModel.predict HelloChat.configure
       (SimpleChatModel.model (HelloChat.model None) HelloChat._call)
       "good morning" BaseChatModel.NoOptions None [0] HelloChat.initial).1
    = Fulfilled "good morning".
Proof.
  apply (simple_model_call_and_predict HelloChat.configure
           (HelloChat.model None) HelloChat._call [HelloChat.human "hi"]
           "good morning" BaseChatModel.NoOptions None [0] HelloChat.initial).
  set_solver.
Defined.


(** X14, on a run: two documents, one vector each. *)
Lemma addDocuments_one_record_per_document_witness :
  MongoDBAtlasVectorSearch.addDocuments AtlasExample.embedDocuments
      AtlasExample.store [AtlasExample.plain; AtlasExample.shadowing] []
    = (Fulfilled tt,
       [] ++ zip_with (MongoDBAtlasVectorSearch.vectorRecord AtlasExample.store)
               [[10%Z]; [11%Z]] [AtlasExample.plain; AtlasExample.shadowing])
  ∧ length (MongoDBAtlasVectorSearch.addDocuments AtlasExample.embedDocuments
              AtlasExample.store [AtlasExample.plain; AtlasExample.shadowing]
              []).2
    = length ([] : list Obj)
      + length [AtlasExample.plain; AtlasExample.shadowing].
Proof.
  apply (addDocuments_one_record_per_document AtlasExample.embedDocuments
           AtlasExample.store [AtlasExample.plain; AtlasExample.shadowing] []
           [[10%Z]; [11%Z]]); reflexivity.
Defined.

(** X15, on a run: a provider that fails. *)
Lemma addDocuments_appends_or_stores_nothing_witness :
  ∃ added,
    (MongoDBAtlasVectorSearch.addDocuments (λ _, Rejected (Thrown "offline"))
       AtlasExample.store [AtlasExample.plain]
       [MongoDBAtlasVectorSearch.vectorRecord AtlasExample.store [1%Z]
          AtlasExample.shadowing]).2
      = [MongoDBAtlasVectorSearch.vectorRecord AtlasExample.store [1%Z]
           AtlasExample.shadowing] ++ added
    ∧ added = [].
Proof.
  destruct (addDocuments_appends_or_stores_nothing
              (λ _, Rejected (Thrown "offline")) AtlasExample.store
              [AtlasExample.plain]
              [MongoDBAtlasVectorSearch.vectorRecord AtlasExample.store [1%Z]
                 AtlasExample.shadowing])
    as (added & Hadded & Hnone & _).
  exists added. split; [exact Hadded|]. by apply Hnone.
Defined.




